(** * The libevent wrapper of certificate-transparency, embedded in Rocq

    Source: [cpp/util/libevent_wrapper.cc].  The file is a thin C++ layer
    over libevent: every function is a short sequence of libevent calls,
    glog [CHECK]s (which abort the process) and updates of the wrapper
    objects.  The embedding keeps exactly that:

    - libevent is the environment.  A libevent call is recorded in a
      chronological trace together with the value it returned, and the
      returned value is whatever the engine answers after the history so
      far; theorems quantify over every engine;
    - a failed [CHECK] ends the run with [Fatal] and a diagnostic;
    - C++ objects whose address escapes to libevent as a [void*]
      ([Handler], [HttpRequest], [Event]) live in an object store that
      never hands out the same address twice; [delete] empties a cell;
    - user closures ([std::function] objects) are opaque: calling one is
      an event of the trace. *)

From Stdlib Require Import ZArith String Ascii List Bool Lia.
From Stdlib Require Import Floats.SpecFloat.
From stdpp Require Import base tactics option list.
Import ListNotations.

Local Open Scope string_scope.
Local Open Scope list_scope.
Local Open Scope Z_scope.

(** ** C data *)

(** Pointers are integers; the null pointer is 0. *)
Definition ptr := Z.
Definition NULL : ptr := 0.

(** The contents of a C string: the bytes before the terminator, so none
    of them is NUL. *)
Definition nul_free (s : string) : bool :=
  forallb (fun c => negb (Ascii.eqb c zero)) (list_ascii_of_string s).

Record cstring := CStr {
  chars : string;
  chars_nul_free : nul_free chars = true
}.

Definition uchar (c : ascii) : Z := Z.of_N (N_of_ascii c).

(** The byte a [const char*] points at: past the contents sits the
    terminator. *)
Definition byte_at (s : string) : Z :=
  match s with
  | EmptyString => 0
  | String c _ => uchar c
  end.

(** [strcmp] of the C library: compare as unsigned bytes, stop at the first
    difference or at the terminator. *)
Fixpoint strcmp (s1 s2 : string) : Z :=
  match s1, s2 with
  | String c1 t1, String c2 t2 =>
      if uchar c1 =? uchar c2
      then (if uchar c1 =? 0 then 0 else strcmp t1 t2)
      else uchar c1 - uchar c2
  | _, _ => byte_at s1 - byte_at s2
  end.

(** What libevent's accessors [evhttp_uri_get_port], [evhttp_uri_get_scheme]
    and [evhttp_uri_get_host] return for a parsed URI: the port as an [int]
    (-1 when the URI has none), scheme and host as possibly null strings. *)
Record evhttp_uri := {
  evhttp_uri_get_port : Z;
  evhttp_uri_get_scheme : option cstring;
  evhttp_uri_get_host : option cstring
}.

Record timeval := { tv_sec : Z; tv_usec : Z }.

(** [<signal.h>] on Linux. *)
Definition SIGHUP : Z := 1.
Definition SIGINT : Z := 2.
Definition SIGTERM : Z := 15.

(** [EVLOOP_ONCE] of [<event2/event.h>]. *)
Definition EVLOOP_ONCE : Z := 1.

(** The C functions of this file whose address is handed to libevent. *)
Inductive event_callback_fn := Fn_Handler_ExitLoop | Fn_Event_Dispatch.
Inductive request_callback_fn := Fn_HandleRequest | Fn_HttpRequest_Done.

(** A user closure ([Callback], [HandlerCallback]), named by an identifier. *)
Definition closure := nat.

(** ** The engine *)

(** The libevent functions the file calls, with their arguments. *)
Inductive call :=
| event_base_new
| evthread_make_base_notifiable (base : ptr)
| event_base_free (base : ptr)
| event_base_loopexit (base : ptr) (tv : option timeval)
| evsignal_new (base : ptr) (signum : Z) (cb : event_callback_fn) (arg : ptr)
| event_new (base : ptr) (sock : Z) (events : Z) (cb : event_callback_fn)
    (arg : ptr)
| event_add (ev : ptr) (tv : option timeval)
| event_free (ev : ptr)
| event_base_dispatch (base : ptr)
| event_base_loop (base : ptr) (flags : Z)
| evdns_base_new (base : ptr) (initialize : Z)
| evdns_base_free (dns : ptr) (fail_requests : bool)
| evhttp_new (base : ptr)
| evhttp_free (http : ptr)
| evhttp_bind_socket (http : ptr) (address : string) (port : Z)
| evhttp_set_cb (http : ptr) (path : string) (cb : request_callback_fn)
    (arg : ptr)
| evhttp_request_new (cb : request_callback_fn) (arg : ptr)
| evhttp_request_free (req : ptr)
| evhttp_connection_base_new (base : ptr) (dns : ptr) (host : string)
    (port : Z)
| evhttp_connection_free (conn : ptr)
| evhttp_make_request (conn : ptr) (req : ptr) (type : Z) (uri : string).

Inductive event :=
| ECall (c : call) (result : Z)           (* a libevent call and its result *)
| EUser (cb : closure) (args : list Z)    (* a user closure is invoked *)
| ENew (p : ptr)                          (* operator new returned [p] *)
| EDelete (p : ptr)                       (* operator delete on [p] *)
| ELock                                   (* dns_lock_ acquired *)
| EUnlock.                                (* dns_lock_ released *)

(** ** Wrapper objects *)

Record Handler := { path : string; cb : closure }.
Record HttpRequest := { callback_ : closure; req_ : ptr }.
Record Event := { cb_ : closure; ev_ : ptr }.
Record Base := { base_ : ptr; dns_ : ptr }.
Record HttpServer := { http_ : ptr; handlers_ : list ptr }.
Record HttpConnection := { conn_ : ptr }.

Inductive object :=
| ORaw                                    (* allocated, not yet constructed *)
| OHandler (h : Handler)
| OHttpRequest (r : HttpRequest)
| OEvent (e : Event).

(** ** The world: engine, history and object store *)

Record world := {
  engine : list event -> call -> Z;
  trace : list event;
  heap : list (option object)
}.

Inductive outcome (A : Type) :=
| Ok (a : A) (w : world)
| Fatal (diagnostic : string) (w : world)   (* a CHECK failed: abort() *)
| Undefined.                                (* undefined behaviour *)
Arguments Ok {A} a w.
Arguments Fatal {A} diagnostic w.
Arguments Undefined {A}.

Definition M (A : Type) : Type := world -> outcome A.

Definition ret {A} (a : A) : M A := fun w => Ok a w.

Definition bind {A B} (m : M A) (k : A -> M B) : M B :=
  fun w =>
    match m w with
    | Ok a w' => k a w'
    | Fatal d w' => Fatal d w'
    | Undefined => Undefined
    end.

Notation "x <- m ;; k" := (bind m (fun x => k))
  (at level 63, m at next level, right associativity).
Notation "m ;;; k" := (bind m (fun _ => k))
  (at level 63, right associativity).

Definition fatal {A} (d : string) : M A := fun w => Fatal d w.
Definition undefined {A} : M A := fun _ => Undefined.

Definition record (e : event) (w : world) : world :=
  {| engine := engine w; trace := trace w ++ [e]; heap := heap w |}.

Definition emit (e : event) : M unit := fun w => Ok tt (record e w).

(** A call into libevent: the engine answers, the call is recorded. *)
Definition libevent (c : call) : M Z :=
  fun w =>
    let r := engine w (trace w) c in
    Ok r (record (ECall c r) w).

(** glog's checks. *)
Definition CHECK_NOTNULL (what : string) (p : ptr) : M ptr :=
  if p =? NULL then fatal ("Check failed: '" ++ what ++ "' Must be non NULL")%string
  else ret p.

Definition CHECK_EQ (what : string) (a b : Z) : M unit :=
  if a =? b then ret tt else fatal ("Check failed: " ++ what)%string.

Definition CHECK_GE (what : string) (a b : Z) : M unit :=
  if a >=? b then ret tt else fatal ("Check failed: " ++ what)%string.

(** ** The object store *)

Definition addr_of_index (i : nat) : ptr := Z.of_nat i + 1.
Definition index_of_addr (p : ptr) : nat := Z.to_nat (p - 1).

Definition load (p : ptr) (h : list (option object)) : option object :=
  if p <=? 0 then None
  else match h !! index_of_addr p with
       | Some (Some o) => Some o
       | _ => None
       end.

(** [operator new]: a cell at an address never used before. *)
Definition operator_new : M ptr :=
  fun w =>
    let p := addr_of_index (length (heap w)) in
    Ok p {| engine := engine w;
            trace := trace w ++ [ENew p];
            heap := heap w ++ [Some ORaw] |}.

(** Writing a live object; touching a dead one is undefined. *)
Definition store (p : ptr) (o : object) : M unit :=
  fun w =>
    match load p (heap w) with
    | Some _ => Ok tt {| engine := engine w;
                         trace := trace w;
                         heap := <[index_of_addr p := Some o]> (heap w) |}
    | None => Undefined
    end.

(** [operator delete] on a live object. *)
Definition operator_delete (p : ptr) : M unit :=
  fun w =>
    match load p (heap w) with
    | Some _ => Ok tt {| engine := engine w;
                         trace := trace w ++ [EDelete p];
                         heap := <[index_of_addr p := None]> (heap w) |}
    | None => Undefined
    end.

(** [static_cast<T*>(p)] followed by a member access. *)
Definition load_Handler (p : ptr) : M Handler :=
  fun w => match load p (heap w) with
           | Some (OHandler h) => Ok h w
           | _ => Undefined
           end.

Definition load_HttpRequest (p : ptr) : M HttpRequest :=
  fun w => match load p (heap w) with
           | Some (OHttpRequest r) => Ok r w
           | _ => Undefined
           end.

Definition load_Event (p : ptr) : M Event :=
  fun w => match load p (heap w) with
           | Some (OEvent e) => Ok e w
           | _ => Undefined
           end.

(** C++ leaves the order in which the arguments of a call are evaluated
    to the compiler. *)
Inductive eval_order := LeftToRight | RightToLeft.

Definition eval_args {A B} (o : eval_order) (a : M A) (b : M B) : M (A * B) :=
  match o with
  | LeftToRight => x <- a ;; y <- b ;; ret (x, y)
  | RightToLeft => y <- b ;; x <- a ;; ret (x, y)
  end.

(** ** The anonymous namespace *)

Definition Handler_ExitLoop (sig events : Z) (base : ptr) : M unit :=
  libevent (event_base_loopexit base None) ;;; ret tt.

Definition SetExitLoopHandler (base : ptr) (signum : Z) : M unit :=
  signal_event <- libevent (evsignal_new base signum Fn_Handler_ExitLoop base) ;;
  CHECK_NOTNULL "signal_event" signal_event ;;;
  r <- libevent (event_add signal_event None) ;;
  CHECK_GE "event_add(signal_event, NULL) >= 0" r 0.

(** The conversion of the [int] result to [unsigned short]. *)
Definition to_unsigned_short (retval : Z) : Z := retval mod 65536.

Definition GetPortFromUri (uri : evhttp_uri) : M Z :=
  let retval := evhttp_uri_get_port uri in
  if (retval <? 1) || (retval >? 65535) then
    scheme <- match evhttp_uri_get_scheme uri with
              | Some s => ret s
              | None =>
                  fatal "Check failed: 'evhttp_uri_get_scheme(uri)' Must be non NULL"
              end ;;
    if strcmp "http" (chars scheme) =? 0
    then ret (to_unsigned_short 80)
    else ret (to_unsigned_short 0)
  else ret (to_unsigned_short retval).

(** ** [cert_trans::libevent::Base] *)

(** [Base::Base()]. *)
Definition Base_ctor : M Base :=
  base <- libevent event_base_new ;;
  libevent (evthread_make_base_notifiable base) ;;;
  ret {| base_ := base; dns_ := NULL |}.

(** [Base::~Base()]. *)
Definition Base_dtor (this : Base) : M unit :=
  (if dns_ this =? NULL then ret tt
   else libevent (evdns_base_free (dns_ this) true) ;;; ret tt) ;;;
  libevent (event_base_free (base_ this)) ;;;
  ret tt.

Definition Base_Dispatch (this : Base) : M unit :=
  SetExitLoopHandler (base_ this) SIGHUP ;;;
  SetExitLoopHandler (base_ this) SIGINT ;;;
  SetExitLoopHandler (base_ this) SIGTERM ;;;
  r <- libevent (event_base_dispatch (base_ this)) ;;
  CHECK_EQ "event_base_dispatch(base_) == 0" r 0.

Definition Base_DispatchOnce (this : Base) : M unit :=
  r <- libevent (event_base_loop (base_ this) EVLOOP_ONCE) ;;
  CHECK_EQ "event_base_loop(base_, EVLOOP_ONCE) == 0" r 0.

Definition Base_EventNew (this : Base) (sock events : Z) (event : ptr)
  : M ptr :=
  e <- libevent (event_new (base_ this) sock events Fn_Event_Dispatch event) ;;
  CHECK_NOTNULL "event_new(base_, sock, events, &Event::Dispatch, event)" e.

Definition Base_HttpNew (this : Base) : M ptr :=
  h <- libevent (evhttp_new (base_ this)) ;;
  CHECK_NOTNULL "evhttp_new(base_)" h.

(** [Base::GetDns()]: the [lock_guard] holds [dns_lock_] for the body.  The
    object is passed in and handed back with the handle, since the member
    [dns_] may be assigned. *)
Definition Base_GetDns (this : Base) : M (ptr * Base) :=
  emit ELock ;;;
  this' <- (if dns_ this =? NULL then
              d <- libevent (evdns_base_new (base_ this) 1) ;;
              d <- CHECK_NOTNULL "evdns_base_new(base_, 1)" d ;;
              ret {| base_ := base_ this; dns_ := d |}
            else ret this) ;;
  emit EUnlock ;;;
  ret (dns_ this', this').

Definition Base_HttpConnectionNew (this : Base) (host : string) (port : Z)
  : M (ptr * Base) :=
  dt <- Base_GetDns this ;;
  c <- libevent (evhttp_connection_base_new (base_ (snd dt)) (fst dt) host port) ;;
  c <- CHECK_NOTNULL "evhttp_connection_base_new(base_, GetDns(), host.c_str(), port)" c ;;
  ret (c, snd dt).

(** ** [Base::GetDns], one step of one thread at a time *)

(** Where a thread is inside [GetDns]. *)
Inductive pc :=
| AtEntry                (* before [lock_guard<mutex> lock(dns_lock_)] *)
| AtTest                 (* holds the lock, before [if (!dns_)] *)
| AtStore (d : ptr)      (* [evdns_base_new] returned [d], before [dns_ = d] *)
| AtReturn               (* before [return dns_] and the end of the scope *)
| Returned (d : ptr).    (* lock released, [d] returned *)

(** The object the threads share, its mutex, and where each thread is. *)
Record racing := {
  r_this : Base;
  r_locked : bool;
  r_pcs : list pc
}.

(** Thread [t] takes its next step.  A thread that waits for the mutex or
    has returned does not move. *)
Definition GetDns_step (t : nat) (s : racing) : M racing :=
  match r_pcs s !! t with
  | Some AtEntry =>
      if r_locked s then ret s
      else
        emit ELock ;;;
        ret {| r_this := r_this s; r_locked := true;
               r_pcs := <[t := AtTest]> (r_pcs s) |}
  | Some AtTest =>
      if dns_ (r_this s) =? NULL then
        d <- libevent (evdns_base_new (base_ (r_this s)) 1) ;;
        d <- CHECK_NOTNULL "evdns_base_new(base_, 1)" d ;;
        ret {| r_this := r_this s; r_locked := r_locked s;
               r_pcs := <[t := AtStore d]> (r_pcs s) |}
      else
        ret {| r_this := r_this s; r_locked := r_locked s;
               r_pcs := <[t := AtReturn]> (r_pcs s) |}
  | Some (AtStore d) =>
      ret {| r_this := {| base_ := base_ (r_this s); dns_ := d |};
             r_locked := r_locked s;
             r_pcs := <[t := AtReturn]> (r_pcs s) |}
  | Some AtReturn =>
      emit EUnlock ;;;
      ret {| r_this := r_this s; r_locked := false;
             r_pcs := <[t := Returned (dns_ (r_this s))]> (r_pcs s) |}
  | Some (Returned _) | None => ret s
  end.

(** The threads move as a schedule says. *)
Fixpoint GetDns_threads (schedule : list nat) (s : racing) : M racing :=
  match schedule with
  | [] => ret s
  | t :: rest => s' <- GetDns_step t s ;; GetDns_threads rest s'
  end.

(** ** [cert_trans::libevent::Event] *)

(** IEEE 754 binary64, as the Standard Library specifies it. *)
Definition double := spec_float.
Definition double_of_Z (z : Z) : double := binary_normalize 53 1024 z 0 false.
Definition double_sub (x y : double) : double := SFsub 53 1024 x y.
Definition double_mul (x y : double) : double := SFmul 53 1024 x y.
Definition double_ge (x y : double) : bool := SFleb y x.

(** The magnitude of m * 2^e, fraction dropped. *)
Definition integer_part (m : positive) (e : Z) : Z :=
  if 0 <=? e then Z.pos m * 2 ^ e else Z.shiftr (Z.pos m) (- e).

(** [trunc] of [<math.h>]: round toward zero to an integral double.  A
    double whose exponent is not negative is integral already; otherwise
    the fraction bits of the mantissa are cleared, and of a value below one
    only the signed zero is left. *)
Definition trunc (x : double) : double :=
  match x with
  | S754_finite s m e =>
      if 0 <=? e then x
      else match Z.shiftl (Z.shiftr (Z.pos m) (- e)) (- e) with
           | Z.pos m' => S754_finite s m' e
           | _ => S754_zero s
           end
  | _ => x
  end.

(** [time_t] and [suseconds_t] are [long], 64 bits wide. *)
Definition LONG_MIN : Z := - 2 ^ 63.
Definition LONG_MAX : Z := 2 ^ 63 - 1.

(** Conversion of a double to [long]: the fraction is dropped; the
    behaviour is undefined when the value does not fit (NaN and the
    infinities included). *)
Definition double_to_long (x : double) : M Z :=
  match x with
  | S754_zero _ => ret 0
  | S754_finite s m e =>
      let z := cond_Zopp s (integer_part m e) in
      if (LONG_MIN <=? z) && (z <=? LONG_MAX) then ret z else undefined
  | _ => undefined
  end.

(** Modelled from the spec: [kNumMicrosPerSecond] is declared in
    [base/time_support.h]; the spec says the sub-second component has
    microsecond resolution, so the number of microseconds in a second. *)
Definition kNumMicrosPerSecond : Z := 1000000.

(** [Event::Event]: the object's own address is the callback argument. *)
Definition Event_ctor (base : Base) (sock events : Z) (cb : closure) : M ptr :=
  this <- operator_new ;;
  ev <- Base_EventNew base sock events this ;;
  store this (OEvent {| cb_ := cb; ev_ := ev |}) ;;;
  ret this.

(** [Event::~Event]. *)
Definition Event_dtor (this : Event) : M unit :=
  libevent (event_free (ev_ this)) ;;; ret tt.

Definition Event_Add (this : Event) (timeout : double) : M unit :=
  tvp <- (if double_ge timeout (double_of_Z 0) then
            sec <- double_to_long (trunc timeout) ;;
            let timeout := double_sub timeout (double_of_Z sec) in
            usec <- double_to_long
                      (double_mul timeout (double_of_Z kNumMicrosPerSecond)) ;;
            ret (Some {| tv_sec := sec; tv_usec := usec |})
          else ret None) ;;
  r <- libevent (event_add (ev_ this) tvp) ;;
  CHECK_EQ "event_add(ev_, tvp) == 0" r 0.

Definition Event_Dispatch (sock events : Z) (userdata : ptr) : M unit :=
  this <- load_Event userdata ;;
  emit (EUser (cb_ this) [sock; events]).

(** ** [cert_trans::libevent::HttpServer] *)

Definition HttpServer_ctor (base : Base) : M HttpServer :=
  http <- Base_HttpNew base ;;
  ret {| http_ := http; handlers_ := [] |}.

(** [delete] of a [Handler*]: nothing for a null pointer, otherwise the
    (trivial) destructor and [operator delete]. *)
Definition delete_Handler (p : ptr) : M unit :=
  if p =? NULL then ret tt
  else load_Handler p ;;; operator_delete p.

(** The loop of the destructor over [handlers_]. *)
Fixpoint delete_each (handlers : list ptr) : M unit :=
  match handlers with
  | [] => ret tt
  | it :: rest => delete_Handler it ;;; delete_each rest
  end.

(** [HttpServer::~HttpServer]. *)
Definition HttpServer_dtor (this : HttpServer) : M unit :=
  libevent (evhttp_free (http_ this)) ;;;
  delete_each (handlers_ this).

Definition HttpServer_Bind (this : HttpServer) (address : string) (port : Z)
  : M unit :=
  r <- libevent (evhttp_bind_socket (http_ this) address port) ;;
  CHECK_EQ "evhttp_bind_socket(http_, address, port) == 0" r 0.

(** [new Handler(path, cb)]. *)
Definition new_Handler (path : string) (cb : closure) : M ptr :=
  p <- operator_new ;;
  store p (OHandler {| path := path; cb := cb |}) ;;;
  ret p.

Definition HttpServer_AddHandler (this : HttpServer) (path : string)
  (cb : closure) : M (bool * HttpServer) :=
  handler <- new_Handler path cb ;;
  let this := {| http_ := http_ this;
                 handlers_ := handlers_ this ++ [handler] |} in
  r <- libevent (evhttp_set_cb (http_ this) path Fn_HandleRequest handler) ;;
  ret (r =? 0, this).

Definition HttpServer_HandleRequest (req : ptr) (userdata : ptr) : M unit :=
  this <- load_Handler userdata ;;
  emit (EUser (cb this) [req]).

(** ** [cert_trans::libevent::HttpRequest] *)

(** [HttpRequest::HttpRequest], for a wrapper made with [new]. *)
Definition HttpRequest_ctor (callback : closure) : M ptr :=
  this <- operator_new ;;
  req <- libevent (evhttp_request_new Fn_HttpRequest_Done this) ;;
  req <- CHECK_NOTNULL "evhttp_request_new(&HttpRequest::Done, this)" req ;;
  store this (OHttpRequest {| callback_ := callback; req_ := req |}) ;;;
  ret this.

(** [HttpRequest::~HttpRequest]. *)
Definition HttpRequest_dtor (this : HttpRequest) : M unit :=
  if req_ this =? NULL then ret tt
  else libevent (evhttp_request_free (req_ this)) ;;; ret tt.

(** [delete] of an [HttpRequest*]. *)
Definition delete_HttpRequest (p : ptr) : M unit :=
  if p =? NULL then ret tt
  else
    this <- load_HttpRequest p ;;
    HttpRequest_dtor this ;;;
    operator_delete p.

(** [HttpRequest::Done], the completion trampoline.  The two operands of
    the [CHECK_EQ] are arguments of one call, hence the [eval_order]. *)
Definition HttpRequest_Done (o : eval_order) (req : ptr) (userdata : ptr)
  : M unit :=
  self <- CHECK_NOTNULL "userdata" userdata ;;
  ab <- eval_args o (this <- load_HttpRequest self ;; ret (req_ this))
                    (CHECK_NOTNULL "req" req) ;;
  CHECK_EQ "self->req_ == req" (fst ab) (snd ab) ;;;
  this <- load_HttpRequest self ;;
  emit (EUser (callback_ this) [self]) ;;;
  this <- load_HttpRequest self ;;
  store self (OHttpRequest {| callback_ := callback_ this; req_ := NULL |}) ;;;
  delete_HttpRequest self.

(** ** [cert_trans::libevent::HttpConnection] *)

(** Building a [std::string] from a [const char*]: undefined for null. *)
Definition string_of_c_str (p : option cstring) : M string :=
  match p with
  | Some s => ret (chars s)
  | None => undefined
  end.

(** [HttpConnection::HttpConnection]; [base] is the shared [Base]. *)
Definition HttpConnection_ctor (o : eval_order) (base : Base)
  (uri : evhttp_uri) : M (HttpConnection * Base) :=
  hp <- eval_args o (string_of_c_str (evhttp_uri_get_host uri))
                    (GetPortFromUri uri) ;;
  cb <- Base_HttpConnectionNew base (fst hp) (snd hp) ;;
  ret ({| conn_ := fst cb |}, snd cb).

(** [HttpConnection::~HttpConnection]. *)
Definition HttpConnection_dtor (this : HttpConnection) : M unit :=
  libevent (evhttp_connection_free (conn_ this)) ;;; ret tt.

(** [HttpConnection::MakeRequest].  [req_get] is what [req->get()]
    returns; the accessor is declared in the header, so its value is taken
    as given. *)
Definition HttpConnection_MakeRequest (this : HttpConnection) (req_get : ptr)
  (type : Z) (uri : string) : M unit :=
  r <- libevent (evhttp_make_request (conn_ this) req_get type uri) ;;
  CHECK_EQ "evhttp_make_request(conn_, req->get(), type, uri.c_str()) == 0" r 0.

(** ** The operations of the layer and what they return *)

Inductive operation :=
| OpBase_ctor | OpBase_dtor | OpBase_Dispatch | OpBase_DispatchOnce
| OpBase_EventNew | OpBase_HttpNew | OpBase_GetDns | OpBase_HttpConnectionNew
| OpEvent_ctor | OpEvent_dtor | OpEvent_Add | OpEvent_Dispatch
| OpHttpServer_ctor | OpHttpServer_dtor | OpHttpServer_Bind
| OpHttpServer_AddHandler | OpHttpServer_HandleRequest
| OpHttpRequest_ctor | OpHttpRequest_dtor | OpHttpRequest_Done
| OpHttpConnection_ctor | OpHttpConnection_dtor | OpHttpConnection_MakeRequest.

(** What an embedded function hands back: nothing, a pointer, a boolean,
    one of the objects it assigns to, or several of these. *)
Inductive result_code :=
| RUnit | RPtr | RBool | RBase | RServer | RConnection
| RPair (a b : result_code).

Fixpoint result_type (c : result_code) : Type :=
  match c with
  | RUnit => unit
  | RPtr => ptr
  | RBool => bool
  | RBase => Base
  | RServer => HttpServer
  | RConnection => HttpConnection
  | RPair a b => (result_type a * result_type b)%type
  end.

(** A boolean is among what is handed back. *)
Fixpoint has_bool (c : result_code) : bool :=
  match c with
  | RBool => true
  | RPair a b => has_bool a || has_bool b
  | _ => false
  end.

Definition arguments (op : operation) : Type :=
  match op with
  | OpBase_ctor => unit
  | OpBase_dtor | OpBase_Dispatch | OpBase_DispatchOnce | OpBase_HttpNew
  | OpBase_GetDns | OpHttpServer_ctor => Base
  | OpBase_EventNew => (Base * Z * Z * ptr)%type
  | OpBase_HttpConnectionNew => (Base * string * Z)%type
  | OpEvent_ctor => (Base * Z * Z * closure)%type
  | OpEvent_dtor => Event
  | OpEvent_Add => (Event * double)%type
  | OpEvent_Dispatch => (Z * Z * ptr)%type
  | OpHttpServer_dtor => HttpServer
  | OpHttpServer_Bind => (HttpServer * string * Z)%type
  | OpHttpServer_AddHandler => (HttpServer * string * closure)%type
  | OpHttpServer_HandleRequest => (ptr * ptr)%type
  | OpHttpRequest_ctor => closure
  | OpHttpRequest_dtor => HttpRequest
  | OpHttpRequest_Done => (eval_order * ptr * ptr)%type
  | OpHttpConnection_ctor => (eval_order * Base * evhttp_uri)%type
  | OpHttpConnection_dtor => HttpConnection
  | OpHttpConnection_MakeRequest => (HttpConnection * ptr * Z * string)%type
  end.

Definition result_of (op : operation) : result_code :=
  match op with
  | OpBase_ctor => RBase
  | OpHttpServer_ctor => RServer
  | OpBase_EventNew | OpBase_HttpNew | OpEvent_ctor | OpHttpRequest_ctor => RPtr
  | OpBase_GetDns | OpBase_HttpConnectionNew => RPair RPtr RBase
  | OpHttpServer_AddHandler => RPair RBool RServer
  | OpHttpConnection_ctor => RPair RConnection RBase
  | _ => RUnit
  end.

(** Each operation as embedded above.  The result codes of [result_of] are
    the result types of these functions: the definition is not accepted
    otherwise. *)
Definition embedded (op : operation)
  : arguments op -> M (result_type (result_of op)) :=
  match op with
  | OpBase_ctor => fun _ => Base_ctor
  | OpBase_dtor => Base_dtor
  | OpBase_Dispatch => Base_Dispatch
  | OpBase_DispatchOnce => Base_DispatchOnce
  | OpBase_EventNew =>
      fun '(this, sock, events, event) => Base_EventNew this sock events event
  | OpBase_HttpNew => Base_HttpNew
  | OpBase_GetDns => Base_GetDns
  | OpBase_HttpConnectionNew =>
      fun '(this, host, port) => Base_HttpConnectionNew this host port
  | OpEvent_ctor =>
      fun '(base, sock, events, cb) => Event_ctor base sock events cb
  | OpEvent_dtor => Event_dtor
  | OpEvent_Add => fun '(this, timeout) => Event_Add this timeout
  | OpEvent_Dispatch =>
      fun '(sock, events, userdata) => Event_Dispatch sock events userdata
  | OpHttpServer_ctor => HttpServer_ctor
  | OpHttpServer_dtor => HttpServer_dtor
  | OpHttpServer_Bind =>
      fun '(this, address, port) => HttpServer_Bind this address port
  | OpHttpServer_AddHandler =>
      fun '(this, path, cb) => HttpServer_AddHandler this path cb
  | OpHttpServer_HandleRequest =>
      fun '(req, userdata) => HttpServer_HandleRequest req userdata
  | OpHttpRequest_ctor => HttpRequest_ctor
  | OpHttpRequest_dtor => HttpRequest_dtor
  | OpHttpRequest_Done =>
      fun '(o, req, userdata) => HttpRequest_Done o req userdata
  | OpHttpConnection_ctor =>
      fun '(o, base, uri) => HttpConnection_ctor o base uri
  | OpHttpConnection_dtor => HttpConnection_dtor
  | OpHttpConnection_MakeRequest =>
      fun '(this, req_get, type, uri) =>
        HttpConnection_MakeRequest this req_get type uri
  end.

(** * Vocabulary of the properties *)

(** What follows is not taken from the source: predicates and counters in
    which the properties are stated, drivers that call a function several
    times, and concrete engines, worlds and objects to run the model on. *)

(** ** Engines, worlds and strings to run on *)

(** An engine under which everything succeeds: an allocation returns a
    fresh non-null handle, anything else returns 0. *)
Definition obliging_engine (history : list event) (c : call) : Z :=
  match c with
  | event_base_new | evsignal_new _ _ _ _ | event_new _ _ _ _ _
  | evdns_base_new _ _ | evhttp_new _ | evhttp_request_new _ _
  | evhttp_connection_base_new _ _ _ _ => 4096 + Z.of_nat (length history)
  | _ => 0
  end.

(** An engine that fails at everything: allocations return null, the rest
    returns -1. *)
Definition failing_engine (history : list event) (c : call) : Z :=
  match c with
  | event_base_new | evsignal_new _ _ _ _ | event_new _ _ _ _ _
  | evdns_base_new _ _ | evhttp_new _ | evhttp_request_new _ _
  | evhttp_connection_base_new _ _ _ _ => NULL
  | _ => -1
  end.

Definition fresh_world (e : list event -> call -> Z) : world :=
  {| engine := e; trace := []; heap := [] |}.

Definition cstr_http : cstring := CStr "http" eq_refl.
Definition cstr_https : cstring := CStr "https" eq_refl.
Definition cstr_host : cstring := CStr "ct.example.org" eq_refl.

(** ** Port resolution *)

Definition port_in_range (uri : evhttp_uri) : Prop :=
  1 <= evhttp_uri_get_port uri <= 65535.

Definition scheme_is_http (uri : evhttp_uri) : Prop :=
  exists s, evhttp_uri_get_scheme uri = Some s /\ chars s = "http".

Definition no_scheme_diagnostic : string :=
  "Check failed: 'evhttp_uri_get_scheme(uri)' Must be non NULL".

(** ** Exit handlers *)

(** The results recorded in the events [es] are what the engine [eng]
    answers to each call after the history before it. *)
Fixpoint engine_answers (eng : list event -> call -> Z)
  (history es : list event) : Prop :=
  match es with
  | [] => True
  | e :: rest =>
      match e with
      | ECall c r => r = eng history c
      | _ => True
      end /\
      engine_answers eng (history ++ [e]) rest
  end.

(** The events of one successful [SetExitLoopHandler]: a signal event bound
    to [Handler_ExitLoop] is created and added without timeout. *)
Definition exit_handler_installed (base : ptr) (signum : Z) (es : list event)
  : Prop :=
  exists ev r, ev <> NULL /\ 0 <= r /\
    es = [ECall (evsignal_new base signum Fn_Handler_ExitLoop base) ev;
          ECall (event_add ev None) r].

(** The events of a failed one: no signal event, or adding it failed. *)
Definition exit_handler_failed (base : ptr) (signum : Z) (es : list event)
  : Prop :=
  es = [ECall (evsignal_new base signum Fn_Handler_ExitLoop base) NULL] \/
  exists ev r, ev <> NULL /\ r < 0 /\
    es = [ECall (evsignal_new base signum Fn_Handler_ExitLoop base) ev;
          ECall (event_add ev None) r].

Definition exit_handlers_installed (base : ptr) (es : list event) : Prop :=
  exists e1 e2 e3,
    exit_handler_installed base SIGHUP e1 /\
    exit_handler_installed base SIGINT e2 /\
    exit_handler_installed base SIGTERM e3 /\
    es = e1 ++ e2 ++ e3.

(** Installation stopped at the first handler that failed. *)
Definition installation_failed (base : ptr) (es : list event) : Prop :=
  (exists e1, exit_handler_failed base SIGHUP e1 /\ es = e1) \/
  (exists e1 e2,
     exit_handler_installed base SIGHUP e1 /\
     exit_handler_failed base SIGINT e2 /\ es = e1 ++ e2) \/
  (exists e1 e2 e3,
     exit_handler_installed base SIGHUP e1 /\
     exit_handler_installed base SIGINT e2 /\
     exit_handler_failed base SIGTERM e3 /\ es = e1 ++ e2 ++ e3).

(** ** The resolver handle *)

Definition is_dns_creation (e : event) : bool :=
  match e with
  | ECall (evdns_base_new _ _) _ => true
  | _ => false
  end.

(** How many resolver handles the events create. *)
Definition creations (es : list event) : nat :=
  length (List.filter is_dns_creation es).

(** [n] calls of [GetDns] in a row on the same object. *)
Fixpoint GetDns_repeatedly (n : nat) (this : Base) : M (list ptr * Base) :=
  match n with
  | O => ret ([], this)
  | S n =>
      r <- Base_GetDns this ;;
      rs <- GetDns_repeatedly n (snd r) ;;
      ret (fst r :: fst rs, snd rs)
  end.

(** The thread holds [dns_lock_]. *)
Definition inside (p : pc) : bool :=
  match p with
  | AtTest | AtStore _ | AtReturn => true
  | AtEntry | Returned _ => false
  end.

(** [n] threads about to call [GetDns] on the same object. *)
Definition threads_at_entry (n : nat) (this : Base) : racing :=
  {| r_this := this; r_locked := false; r_pcs := repeat AtEntry n |}.

(** What holds of racing threads after the events [es]: the mutex is held
    by exactly the threads inside, so by one at most; a thread about to
    store found [dns_] null and created the only handle; a thread about to
    return sees a handle; a thread that returned got the handle stored in
    the object; no second handle is created. *)
Record race_invariant (s : racing) (es : list event) : Prop := {
  one_inside :
    length (List.filter inside (r_pcs s))
    = if r_locked s then 1%nat else 0%nat;
  storing : forall t d, r_pcs s !! t = Some (AtStore d) ->
    d <> NULL /\ dns_ (r_this s) = NULL /\ creations es = 1%nat;
  returning : forall t, r_pcs s !! t = Some AtReturn ->
    dns_ (r_this s) <> NULL;
  returned : forall t d, r_pcs s !! t = Some (Returned d) ->
    d = dns_ (r_this s) /\ d <> NULL;
  created_once : (creations es <= 1)%nat;
  not_created : dns_ (r_this s) = NULL ->
    (forall t d, r_pcs s !! t <> Some (AtStore d)) ->
    creations es = 0%nat
}.

Definition dns_diagnostic : string :=
  "Check failed: 'evdns_base_new(base_, 1)' Must be non NULL".

(** ** Arming an event *)

(** What arming with the timeout pointer [tvp] amounts to: [event_add] is
    called with it, and a non-zero answer is fatal. *)
Definition armed_with (this : Event) (tvp : option timeval) (w : world)
  : outcome unit :=
  let r := engine w (trace w) (event_add (ev_ this) tvp) in
  let w' := record (ECall (event_add (ev_ this) tvp) r) w in
  if r =? 0 then Ok tt w'
  else Fatal "Check failed: event_add(ev_, tvp) == 0" w'.

Definition minus_three_tenths : double :=
  S754_finite true 5404319552844595 (-54).

(** ** Handler records *)

Definition is_delete_of (p : ptr) (e : event) : bool :=
  match e with
  | EDelete q => q =? p
  | _ => false
  end.

(** How many times the events delete the object at [p]. *)
Definition deletions (p : ptr) (es : list event) : nat :=
  length (List.filter (is_delete_of p) es).

(** The server's collection holds distinct, live [Handler] records. *)
Definition owns_live_handlers (w : world) (this : HttpServer) : Prop :=
  List.NoDup (handlers_ this) /\
  forall p, In p (handlers_ this) ->
    exists h, load p (heap w) = Some (OHandler h).

(** A server with two registered handlers, as two successful calls of
    [AddHandler] on a new server leave it. *)
Definition two_handler_server : HttpServer :=
  {| http_ := 4096; handlers_ := [1; 2] |}.

Definition two_handler_world : world :=
  {| engine := obliging_engine;
     trace := [];
     heap := [Some (OHandler {| path := "/ct/v1/get-sth"; cb := 0%nat |});
              Some (OHandler {| path := "/ct/v1/add-chain"; cb := 1%nat |})] |}.

(** ** Request wrappers *)

Definition is_request_free (req : ptr) (e : event) : bool :=
  match e with
  | ECall (evhttp_request_free r) _ => r =? req
  | _ => false
  end.

(** How many times the events free the engine's request [req] directly. *)
Definition frees (req : ptr) (es : list event) : nat :=
  length (List.filter (is_request_free req) es).

(** The wrapper at [self] exists and still refers to an engine request. *)
Definition pending (self : ptr) (w : world) : Prop :=
  exists this, load self (heap w) = Some (OHttpRequest this) /\
               req_ this <> NULL.

(** The address [self] has been handed out by [operator new]. *)
Definition allocated (self : ptr) (w : world) : Prop :=
  (index_of_addr self < length (heap w))%nat.

(** What can happen to wrappers: one is made with [new], the engine fires
    the completion trampoline, one is deleted. *)
Inductive wrapper_op :=
| WNew (callback : closure)
| WDone (o : eval_order) (req userdata : ptr)
| WDelete (p : ptr).

Definition run_op (op : wrapper_op) : M unit :=
  match op with
  | WNew callback => HttpRequest_ctor callback ;;; ret tt
  | WDone o req userdata => HttpRequest_Done o req userdata
  | WDelete p => delete_HttpRequest p
  end.

Fixpoint run_ops (ops : list wrapper_op) : M unit :=
  match ops with
  | [] => ret tt
  | op :: rest => run_op op ;;; run_ops rest
  end.

Definition completes (self : ptr) (op : wrapper_op) : bool :=
  match op with
  | WDone _ _ userdata => userdata =? self
  | _ => false
  end.

(** How many times the trampoline runs for the wrapper at [self]. *)
Definition completions (self : ptr) (ops : list wrapper_op) : nat :=
  length (List.filter (completes self) ops).

(** A wrapper that is pending, or one that does not exist yet. *)
Definition may_complete (self : ptr) (w : world) : Prop :=
  pending self w \/ ~ allocated self w.

Definition request_diagnostic : string :=
  "Check failed: 'evhttp_request_new(&HttpRequest::Done, this)' Must be non NULL".

(** A world with one pending wrapper, as [new HttpRequest(callback)] leaves
    it. *)
Definition one_request_world : world :=
  {| engine := obliging_engine;
     trace := [];
     heap := [Some (OHttpRequest {| callback_ := 7%nat; req_ := 4097 |})] |}.

(** ** Lifetimes and drivers *)

(** The addresses [operator new] hands out, in order. *)
Definition allocations (es : list event) : list ptr :=
  flat_map (fun e => match e with ENew p => [p] | _ => [] end) es.

(** The addresses given to [operator delete], in order. *)
Definition deleted (es : list event) : list ptr :=
  flat_map (fun e => match e with EDelete p => [p] | _ => [] end) es.

(** [k] consecutive addresses from the cell of index [n] on. *)
Fixpoint addrs_from (n k : nat) : list ptr :=
  match k with
  | O => []
  | S k => addr_of_index n :: addrs_from (S n) k
  end.

Definition handler_cell (reg : string * closure) : option object :=
  Some (OHandler {| path := fst reg; cb := snd reg |}).

(** [AddHandler] for each registration of a list, in order. *)
Fixpoint AddHandlers (regs : list (string * closure)) (this : HttpServer)
  : M (list bool * HttpServer) :=
  match regs with
  | [] => ret ([], this)
  | reg :: rest =>
      r <- HttpServer_AddHandler this (fst reg) (snd reg) ;;
      rs <- AddHandlers rest (snd r) ;;
      ret (fst r :: fst rs, snd rs)
  end.

(** A server from construction to destruction. *)
Definition server_lifetime (base : Base) (regs : list (string * closure))
  : M unit :=
  this <- HttpServer_ctor base ;;
  r <- AddHandlers regs this ;;
  HttpServer_dtor (snd r).

(** A loop handle from construction to destruction, its resolver asked for
    [n] times in between. *)
Definition base_lifetime (n : nat) : M unit :=
  this <- Base_ctor ;;
  r <- GetDns_repeatedly n this ;;
  Base_dtor (snd r).

(** One connection after the other on the same shared [Base]. *)
Fixpoint connect_all (o : eval_order) (base : Base) (uris : list evhttp_uri)
  : M (list HttpConnection * Base) :=
  match uris with
  | [] => ret ([], base)
  | uri :: rest =>
      r <- HttpConnection_ctor o base uri ;;
      rs <- connect_all o (snd r) rest ;;
      ret (fst r :: fst rs, snd rs)
  end.

(** A loop handle with one connection, from construction to destruction
    of both. *)
Definition connection_lifetime (o : eval_order) (uri : evhttp_uri) : M unit :=
  base <- Base_ctor ;;
  r <- HttpConnection_ctor o base uri ;;
  HttpConnection_dtor (fst r) ;;;
  Base_dtor (snd r).

(** The events of [GetDns] on [this] when it returns the handle [d]. *)
Definition GetDns_events (this : Base) (d : ptr) : list event :=
  ELock
  :: (if dns_ this =? NULL then [ECall (evdns_base_new (base_ this) 1) d]
      else [])
  ++ [EUnlock].

Definition userdata_diagnostic : string :=
  "Check failed: 'userdata' Must be non NULL".
Definition req_diagnostic : string :=
  "Check failed: 'req' Must be non NULL".
Definition req_mismatch_diagnostic : string :=
  "Check failed: self->req_ == req".

Definition uri_with_port : evhttp_uri :=
  {| evhttp_uri_get_port := 8080;
     evhttp_uri_get_scheme := Some cstr_https;
     evhttp_uri_get_host := Some cstr_host |}.

(** An event from construction to destruction, armed in between or not. *)
Definition event_lifetime (base : Base) (sock events : Z) (cb : closure)
  (arm : option double) : M unit :=
  p <- Event_ctor base sock events cb ;;
  this <- load_Event p ;;
  match arm with
  | Some timeout => Event_Add this timeout
  | None => ret tt
  end ;;;
  Event_dtor this.

(** * Properties *)

(** ** Strings *)

Lemma uchar_zero (c : ascii) : uchar c = 0 <-> c = zero.
Proof.
  unfold uchar. split.
  - intros H. rewrite <- (ascii_N_embedding c).
    assert (N_of_ascii c = 0%N) as -> by lia. reflexivity.
  - intros ->. reflexivity.
Qed.

Lemma uchar_inj (c d : ascii) : uchar c = uchar d -> c = d.
Proof.
  unfold uchar. intros H. apply N2Z.inj in H.
  rewrite <- (ascii_N_embedding c), <- (ascii_N_embedding d). now rewrite H.
Qed.

Lemma nul_free_cons (c : ascii) (s : string) :
  nul_free (String c s) = true <-> c <> zero /\ nul_free s = true.
Proof.
  unfold nul_free. simpl. rewrite andb_true_iff, negb_true_iff.
  destruct (Ascii.eqb_spec c zero); intuition congruence.
Qed.

(** On C strings [strcmp] returns 0 exactly for equal contents. *)
Lemma strcmp_zero_iff (a b : string) :
  nul_free a = true -> nul_free b = true -> (strcmp a b = 0 <-> a = b).
Proof.
  revert b. induction a as [|c a IH]; intros [|d b] Ha Hb; simpl.
  - tauto.
  - apply nul_free_cons in Hb as [Hd _].
    split; [|discriminate]. intros H.
    exfalso. apply Hd, uchar_zero. lia.
  - apply nul_free_cons in Ha as [Hc _].
    split; [|discriminate]. intros H.
    exfalso. apply Hc, uchar_zero. lia.
  - apply nul_free_cons in Ha as [Hc Ha]. apply nul_free_cons in Hb as [Hd Hb].
    destruct (Z.eqb_spec (uchar c) (uchar d)) as [E|E].
    + apply uchar_inj in E. subst d.
      destruct (Z.eqb_spec (uchar c) 0) as [Z0|_].
      * exfalso. now apply Hc, uchar_zero.
      * rewrite (IH b Ha Hb). split; congruence.
    + split.
      * intros H. exfalso. lia.
      * intros H. exfalso. apply E. congruence.
Qed.

Lemma strcmp_http (s : cstring) :
  (strcmp "http" (chars s) =? 0) = true <-> chars s = "http".
Proof.
  rewrite Z.eqb_eq, strcmp_zero_iff;
    [split; congruence | reflexivity | apply chars_nul_free].
Qed.

(** ** Port resolution *)

Lemma range_test (uri : evhttp_uri) :
  (evhttp_uri_get_port uri <? 1) || (evhttp_uri_get_port uri >? 65535) = false
  <-> port_in_range uri.
Proof. unfold port_in_range. lia. Qed.

Lemma GetPortFromUri_in_range (uri : evhttp_uri) (w : world) :
  port_in_range uri ->
  GetPortFromUri uri w = Ok (evhttp_uri_get_port uri) w.
Proof.
  intros H. unfold GetPortFromUri.
  rewrite (proj2 (range_test uri) H). unfold ret, to_unsigned_short.
  rewrite Z.mod_small; [reflexivity | unfold port_in_range in H; lia].
Qed.

Lemma GetPortFromUri_out_of_range (uri : evhttp_uri) (w : world) :
  ~ port_in_range uri ->
  GetPortFromUri uri w =
    match evhttp_uri_get_scheme uri with
    | Some s => if strcmp "http" (chars s) =? 0 then Ok 80 w else Ok 0 w
    | None => Fatal no_scheme_diagnostic w
    end.
Proof.
  intros H. unfold GetPortFromUri.
  destruct ((evhttp_uri_get_port uri <? 1) || (evhttp_uri_get_port uri >? 65535))
    eqn:E.
  - destruct (evhttp_uri_get_scheme uri) as [s|]; [|reflexivity].
    unfold bind, ret. destruct (strcmp "http" (chars s) =? 0); reflexivity.
  - apply range_test in E. contradiction.
Qed.

(** C1, as the specification words it: outside [1, 65535] the result is 0
    whenever the scheme is not "http".  It fails for a URI that has no
    scheme at all: the process aborts on the null scheme. *)
Lemma GetPortFromUri_no_scheme_not_zero :
  let uri := {| evhttp_uri_get_port := -1;
                evhttp_uri_get_scheme := None;
                evhttp_uri_get_host := Some cstr_host |} in
  let w := fresh_world obliging_engine in
  ~ port_in_range uri /\ ~ scheme_is_http uri /\
  GetPortFromUri uri w <> Ok 0 w /\
  GetPortFromUri uri w = Fatal no_scheme_diagnostic w.
Proof.
  cbv zeta. split; [|split; [|split]].
  - unfold port_in_range. simpl. lia.
  - intros [s [H _]]. discriminate H.
  - discriminate.
  - reflexivity.
Qed.

(** C1, amended: a declared port in [1, 65535] is returned as it is; any
    other declared port counts as absent, and then a URI that has a scheme
    resolves to 80 when the scheme is exactly "http" and to 0 when it is
    anything else, while a URI without scheme does not resolve at all: the
    run aborts on the check of the null scheme, the world left as it
    was. *)
Theorem GetPortFromUri_policy (uri : evhttp_uri) (w : world) :
  (port_in_range uri ->
   GetPortFromUri uri w = Ok (evhttp_uri_get_port uri) w) /\
  (~ port_in_range uri ->
   (forall s, evhttp_uri_get_scheme uri = Some s ->
      (chars s = "http" -> GetPortFromUri uri w = Ok 80 w) /\
      (chars s <> "http" -> GetPortFromUri uri w = Ok 0 w)) /\
   (evhttp_uri_get_scheme uri = None ->
      GetPortFromUri uri w = Fatal no_scheme_diagnostic w)).
Proof.
  split; [apply GetPortFromUri_in_range|].
  intros H. rewrite (GetPortFromUri_out_of_range uri w H). split.
  - intros s ->. pose proof (strcmp_http s) as Hs.
    destruct (strcmp "http" (chars s) =? 0); split; intros E; try reflexivity.
    + exfalso. apply E, Hs. reflexivity.
    + apply Hs in E. discriminate E.
  - intros ->. reflexivity.
Qed.

Lemma GetPortFromUri_policy_witness :
  let w := fresh_world obliging_engine in
  GetPortFromUri {| evhttp_uri_get_port := 8080;
                    evhttp_uri_get_scheme := Some cstr_http;
                    evhttp_uri_get_host := Some cstr_host |} w = Ok 8080 w /\
  GetPortFromUri {| evhttp_uri_get_port := -1;
                    evhttp_uri_get_scheme := Some cstr_http;
                    evhttp_uri_get_host := Some cstr_host |} w = Ok 80 w /\
  GetPortFromUri {| evhttp_uri_get_port := 70000;
                    evhttp_uri_get_scheme := Some cstr_https;
                    evhttp_uri_get_host := Some cstr_host |} w = Ok 0 w.
Proof.
  cbv zeta. split; [|split].
  - apply GetPortFromUri_policy. unfold port_in_range. simpl. lia.
  - match goal with |- GetPortFromUri ?u ?w = _ =>
      destruct (GetPortFromUri_policy u w) as [_ H] end.
    destruct H as [H _]; [unfold port_in_range; simpl; lia|].
    apply (H cstr_http eq_refl). reflexivity.
  - match goal with |- GetPortFromUri ?u ?w = _ =>
      destruct (GetPortFromUri_policy u w) as [_ H] end.
    destruct H as [H _]; [unfold port_in_range; simpl; lia|].
    apply (H cstr_https eq_refl). simpl. discriminate.
Defined.

(** C9, as stated: construction of an [HttpConnection] from a URI with
    no valid port and no scheme is fatal.  It fails for a URI that has no
    host either when the host argument is evaluated first: building the
    [std::string] from the null host is undefined before the scheme is
    ever checked. *)
Lemma HttpConnection_ctor_no_host_undefined :
  let uri := {| evhttp_uri_get_port := -1;
                evhttp_uri_get_scheme := None;
                evhttp_uri_get_host := None |} in
  let base := {| base_ := 4096; dns_ := NULL |} in
  let w := fresh_world obliging_engine in
  ~ port_in_range uri /\
  evhttp_uri_get_scheme uri = None /\
  HttpConnection_ctor LeftToRight base uri w = Undefined /\
  forall d w', HttpConnection_ctor LeftToRight base uri w <> Fatal d w'.
Proof.
  cbv zeta. split; [|split; [|split]].
  - unfold port_in_range. simpl. lia.
  - reflexivity.
  - reflexivity.
  - intros d w'. discriminate.
Qed.

(** C9, amended: when the declared port is outside [1, 65535] and the URI
    has no scheme, port resolution returns nothing: the null scheme fails
    the check and the process aborts.  Construction of an [HttpConnection]
    from such a URI therefore never completes.  It is that abort when the
    URI has a host or the port argument is evaluated first; when the URI
    has no host and the host argument is evaluated first the behaviour is
    undefined, the [std::string] being built from a null pointer. *)
Theorem GetPortFromUri_no_scheme_fatal (uri : evhttp_uri) (w : world) :
  ~ port_in_range uri ->
  evhttp_uri_get_scheme uri = None ->
  GetPortFromUri uri w = Fatal no_scheme_diagnostic w /\
  forall (o : eval_order) (base : Base),
    (forall r w', HttpConnection_ctor o base uri w <> Ok r w') /\
    (evhttp_uri_get_host uri <> None \/ o = RightToLeft ->
     HttpConnection_ctor o base uri w = Fatal no_scheme_diagnostic w) /\
    (evhttp_uri_get_host uri = None -> o = LeftToRight ->
     HttpConnection_ctor o base uri w = Undefined).
Proof.
  intros Hport Hscheme.
  pose proof (GetPortFromUri_out_of_range uri w Hport) as Hrun.
  rewrite Hscheme in Hrun. split; [exact Hrun|].
  intros o base. unfold HttpConnection_ctor, eval_args, string_of_c_str.
  destruct o, (evhttp_uri_get_host uri) as [h|];
    unfold bind, ret, undefined; rewrite ?Hrun;
    (split; [|split]); intros;
    first [reflexivity | congruence | intuition congruence].
Qed.

Lemma GetPortFromUri_no_scheme_fatal_witness :
  let uri := {| evhttp_uri_get_port := 0;
                evhttp_uri_get_scheme := None;
                evhttp_uri_get_host := Some cstr_host |} in
  let bare := {| evhttp_uri_get_port := 0;
                 evhttp_uri_get_scheme := None;
                 evhttp_uri_get_host := None |} in
  let base := {| base_ := 4096; dns_ := NULL |} in
  let w := fresh_world obliging_engine in
  GetPortFromUri uri w = Fatal no_scheme_diagnostic w /\
  HttpConnection_ctor LeftToRight base uri w = Fatal no_scheme_diagnostic w /\
  HttpConnection_ctor RightToLeft base bare w = Fatal no_scheme_diagnostic w /\
  HttpConnection_ctor LeftToRight base bare w = Undefined.
Proof.
  cbv zeta. split; [|split; [|split]].
  - apply GetPortFromUri_no_scheme_fatal;
      [unfold port_in_range; simpl; lia | reflexivity].
  - match goal with |- HttpConnection_ctor ?o ?b ?u ?w = _ =>
      destruct (GetPortFromUri_no_scheme_fatal u w) as [_ H] end;
      [unfold port_in_range; simpl; lia | reflexivity |].
    apply H. left. discriminate.
  - match goal with |- HttpConnection_ctor ?o ?b ?u ?w = _ =>
      destruct (GetPortFromUri_no_scheme_fatal u w) as [_ H] end;
      [unfold port_in_range; simpl; lia | reflexivity |].
    apply H. right. reflexivity.
  - match goal with |- HttpConnection_ctor ?o ?b ?u ?w = _ =>
      destruct (GetPortFromUri_no_scheme_fatal u w) as [_ H] end;
      [unfold port_in_range; simpl; lia | reflexivity |].
    apply H; reflexivity.
Defined.

(** A connection to http://ct.example.org: port 80, the resolver handle
    created on the way. *)
Example HttpConnection_ctor_http :
  HttpConnection_ctor LeftToRight {| base_ := 4096; dns_ := NULL |}
    {| evhttp_uri_get_port := -1;
       evhttp_uri_get_scheme := Some cstr_http;
       evhttp_uri_get_host := Some cstr_host |}
    (fresh_world obliging_engine)
  = Ok ({| conn_ := 4099 |}, {| base_ := 4096; dns_ := 4097 |})
       {| engine := obliging_engine;
          trace := [ELock; ECall (evdns_base_new 4096 1) 4097; EUnlock;
                    ECall (evhttp_connection_base_new 4096 4097
                             "ct.example.org" 80) 4099];
          heap := [] |}.
Proof. reflexivity. Qed.

(** ** Running the monad *)

Lemma record_record (e1 e2 : event) (w : world) :
  record e2 (record e1 w)
  = {| engine := engine w; trace := trace w ++ [e1; e2]; heap := heap w |}.
Proof. unfold record. simpl. now rewrite <- app_assoc. Qed.

Lemma index_addr (n : nat) : index_of_addr (addr_of_index n) = n.
Proof. unfold index_of_addr, addr_of_index. lia. Qed.

Lemma addr_positive (n : nat) : (addr_of_index n <=? 0) = false.
Proof. unfold addr_of_index. apply Z.leb_gt. lia. Qed.

Lemma addr_not_null (n : nat) : (addr_of_index n =? NULL) = false.
Proof. unfold addr_of_index, NULL. apply Z.eqb_neq. lia. Qed.

Lemma load_fresh (h : list (option object)) (o : object) :
  load (addr_of_index (length h)) (h ++ [Some o]) = Some o.
Proof.
  unfold load. rewrite addr_positive, index_addr.
  now rewrite list_lookup_middle.
Qed.

Lemma insert_fresh (h : list (option object)) (x y : option object) :
  <[length h := y]> (h ++ [x]) = h ++ [y].
Proof. now rewrite insert_app_r_alt, Nat.sub_diag by lia. Qed.

(** A live address lies inside the store and is not null. *)
Lemma load_Some_inv (p : ptr) (h : list (option object)) (o : object) :
  load p h = Some o ->
  0 < p /\ (index_of_addr p < length h)%nat /\ h !! index_of_addr p = Some (Some o).
Proof.
  unfold load. destruct (Z.leb_spec p 0); [discriminate|].
  destruct (h !! index_of_addr p) as [[o'|]|] eqn:E; try discriminate.
  intros [= ->]. split; [lia|]. split; [|reflexivity].
  now apply lookup_lt_Some in E.
Qed.

(** ** [Base::Base] *)

Lemma Base_ctor_run (w : world) :
  let base := engine w (trace w) event_base_new in
  let r := engine w (trace w ++ [ECall event_base_new base])
             (evthread_make_base_notifiable base) in
  Base_ctor w
  = Ok {| base_ := base; dns_ := NULL |}
       {| engine := engine w;
          trace := trace w ++ [ECall event_base_new base;
                               ECall (evthread_make_base_notifiable base) r];
          heap := heap w |}.
Proof.
  cbv zeta. unfold Base_ctor, bind, libevent, ret.
  now rewrite record_record.
Qed.

(** C3: what [Base::Base] does when libevent cannot allocate the loop
    context ([event_base_new] returns null): nothing checks the result, the
    null context goes to [evthread_make_base_notifiable], whose result is
    dropped as well, and the constructor returns a [Base] around the null
    context.  The run is not fatal. *)
Theorem Base_ctor_allocation_failure :
  engine (fresh_world failing_engine) [] event_base_new = NULL /\
  Base_ctor (fresh_world failing_engine)
  = Ok {| base_ := NULL; dns_ := NULL |}
       {| engine := failing_engine;
          trace := [ECall event_base_new NULL;
                    ECall (evthread_make_base_notifiable NULL) (-1)];
          heap := [] |}.
Proof. split; reflexivity. Qed.

(** With any engine the constructor completes: no engine answer makes it
    abort. *)
Lemma Base_ctor_never_fatal (w : world) :
  exists this w', Base_ctor w = Ok this w'.
Proof. rewrite Base_ctor_run. eauto. Qed.

(** ** [HttpServer::AddHandler] *)

Lemma new_Handler_run (path : string) (cb : closure) (w : world) :
  let p := addr_of_index (length (heap w)) in
  new_Handler path cb w
  = Ok p {| engine := engine w;
            trace := trace w ++ [ENew p];
            heap := heap w ++ [Some (OHandler {| path := path; cb := cb |})] |}.
Proof.
  cbv zeta. unfold new_Handler, bind, operator_new, store, ret. simpl.
  now rewrite load_fresh, index_addr, insert_fresh.
Qed.

(** The exact outcome of a call, whatever the engine answers. *)
Lemma HttpServer_AddHandler_run (this : HttpServer) (path : string)
  (cb : closure) (w : world) :
  let handler := addr_of_index (length (heap w)) in
  let registration := evhttp_set_cb (http_ this) path Fn_HandleRequest handler in
  let r := engine w (trace w ++ [ENew handler]) registration in
  HttpServer_AddHandler this path cb w
  = Ok (r =? 0, {| http_ := http_ this;
                   handlers_ := handlers_ this ++ [handler] |})
       {| engine := engine w;
          trace := trace w ++ [ENew handler; ECall registration r];
          heap := heap w ++ [Some (OHandler {| path := path; cb := cb |})] |}.
Proof.
  cbv zeta. unfold HttpServer_AddHandler, bind.
  rewrite new_Handler_run. unfold libevent, ret, record. simpl.
  now rewrite <- app_assoc.
Qed.

(** The operations that check what libevent answers abort on a failure:
    a non-zero result of the call, or a null handle. *)
Lemma checked_call_run (what : string) (c : call) (w : world) :
  (r <- libevent c ;; CHECK_EQ what r 0) w
  = if engine w (trace w) c =? 0
    then Ok tt (record (ECall c (engine w (trace w) c)) w)
    else Fatal ("Check failed: " ++ what)%string
           (record (ECall c (engine w (trace w) c)) w).
Proof.
  unfold bind, libevent, CHECK_EQ.
  destruct (engine w (trace w) c =? 0); reflexivity.
Qed.

(** C4: [AddHandler] always returns to its caller, and what it returns is
    [false] exactly when libevent's registration call [evhttp_set_cb], as
    the engine answers it, is not 0, and [true] exactly when it is 0.  It
    is the only operation of the layer whose result carries a boolean; the
    operations [Bind], [DispatchOnce] and [MakeRequest], which receive the
    same kind of answer from libevent, abort when it is not 0. *)
Theorem HttpServer_AddHandler_reports_registration (this : HttpServer)
  (path : string) (cb : closure) (w : world) :
  let handler := addr_of_index (length (heap w)) in
  let registration := evhttp_set_cb (http_ this) path Fn_HandleRequest handler in
  let r := engine w (trace w ++ [ENew handler]) registration in
  (exists this' w',
     HttpServer_AddHandler this path cb w = Ok (r =? 0, this') w' /\
     last (trace w') = Some (ECall registration r)) /\
  ((r =? 0) = false <-> r <> 0) /\ ((r =? 0) = true <-> r = 0) /\
  (forall op, has_bool (result_of op) = true <-> op = OpHttpServer_AddHandler) /\
  (forall address port,
     engine w (trace w) (evhttp_bind_socket (http_ this) address port) <> 0 ->
     exists d w', HttpServer_Bind this address port w = Fatal d w') /\
  (forall base : Base,
     engine w (trace w) (event_base_loop (base_ base) EVLOOP_ONCE) <> 0 ->
     exists d w', Base_DispatchOnce base w = Fatal d w') /\
  (forall (conn : HttpConnection) req_get type uri,
     engine w (trace w) (evhttp_make_request (conn_ conn) req_get type uri)
     <> 0 ->
     exists d w', HttpConnection_MakeRequest conn req_get type uri w
                  = Fatal d w').
Proof.
  cbv zeta. split; [|split; [|split; [|split; [|split; [|split]]]]].
  - rewrite HttpServer_AddHandler_run. cbv zeta.
    eexists _, _. split; [reflexivity|]. simpl.
    rewrite last_app. reflexivity.
  - apply Z.eqb_neq.
  - apply Z.eqb_eq.
  - intros op. split; [destruct op; simpl; congruence | intros ->; reflexivity].
  - intros address port Hr. unfold HttpServer_Bind. rewrite checked_call_run.
    apply Z.eqb_neq in Hr. rewrite Hr. eauto.
  - intros base Hr. unfold Base_DispatchOnce. rewrite checked_call_run.
    apply Z.eqb_neq in Hr. rewrite Hr. eauto.
  - intros conn req_get type uri Hr. unfold HttpConnection_MakeRequest.
    rewrite checked_call_run. apply Z.eqb_neq in Hr. rewrite Hr. eauto.
Qed.

Lemma HttpServer_AddHandler_reports_registration_witness :
  (exists d w',
     HttpServer_Bind two_handler_server "0.0.0.0" 6962
       (fresh_world failing_engine) = Fatal d w') /\
  (exists this' w',
     HttpServer_AddHandler two_handler_server "/ct/v1/get-roots" 2%nat
       (fresh_world failing_engine) = Ok (false, this') w').
Proof.
  destruct (HttpServer_AddHandler_reports_registration two_handler_server
              "/ct/v1/get-roots" 2%nat (fresh_world failing_engine))
    as ((this' & w' & Hrun & _) & _ & _ & _ & Hbind & _).
  split.
  - apply (Hbind "0.0.0.0" 6962). discriminate.
  - exists this', w'. exact Hrun.
Defined.

(** ** [Base::Dispatch] *)

Lemma engine_answers_app (eng : list event -> call -> Z)
  (history es1 es2 : list event) :
  engine_answers eng history (es1 ++ es2)
  <-> engine_answers eng history es1
      /\ engine_answers eng (history ++ es1) es2.
Proof.
  revert history. induction es1 as [|e es1 IH]; intros history; simpl.
  - rewrite app_nil_r. tauto.
  - rewrite IH, <- app_assoc. simpl. tauto.
Qed.

Lemma SetExitLoopHandler_run (base : ptr) (signum : Z) (w : world) :
  match SetExitLoopHandler base signum w with
  | Ok _ w' =>
      exists es, exit_handler_installed base signum es /\
                 trace w' = trace w ++ es /\
                 engine w' = engine w /\
                 engine_answers (engine w) (trace w) es
  | Fatal _ w' =>
      exists es, exit_handler_failed base signum es /\
                 trace w' = trace w ++ es /\
                 engine_answers (engine w) (trace w) es
  | Undefined => False
  end.
Proof.
  unfold SetExitLoopHandler, bind, libevent, CHECK_NOTNULL, CHECK_GE.
  set (ev := engine w (trace w)
               (evsignal_new base signum Fn_Handler_ExitLoop base)).
  destruct (Z.eqb_spec ev NULL) as [E|E]; unfold fatal, ret.
  - eexists. split; [left; reflexivity|]. simpl.
    split; [now rewrite E|]. split; [now rewrite <- E | exact I].
  - simpl.
    set (r := engine w _ (event_add ev None)).
    destruct (Z.geb_spec r 0) as [G|G].
    + eexists. split; [exists ev, r; repeat split; [assumption|lia]|].
      simpl. split; [now rewrite <- app_assoc|].
      split; [reflexivity|]. repeat split.
    + eexists. split; [right; exists ev, r; repeat split; [assumption|lia]|].
      simpl. split; [now rewrite <- app_assoc|]. repeat split.
Qed.

(** C6: [Base::Dispatch] first installs an exit handler for SIGHUP, for
    SIGINT and for SIGTERM, in that order and for no other signal, and only
    then calls [event_base_dispatch]; every result in the events is what
    the engine answers to that call.  If an installation fails (the engine
    returns no signal event, or a negative result for adding it) the run is
    fatal at that point and the loop is never dispatched; if all three
    succeed the run is fatal exactly when the engine's answer to
    [event_base_dispatch] is not 0.  The installed handler, when a signal
    fires, asks the loop to exit with [event_base_loopexit] and returns: it
    does not abort. *)
Theorem Base_Dispatch_installs_then_dispatches (this : Base) (w : world) :
  let base := base_ this in
  match Base_Dispatch this w with
  | Ok _ w' =>
      exists es, exit_handlers_installed base es /\
        trace w' = trace w ++ es ++ [ECall (event_base_dispatch base) 0] /\
        engine_answers (engine w) (trace w)
          (es ++ [ECall (event_base_dispatch base) 0])
  | Fatal _ w' =>
      (exists es, installation_failed base es /\
         trace w' = trace w ++ es /\
         engine_answers (engine w) (trace w) es /\
         forall r, ~ In (ECall (event_base_dispatch base) r) es) \/
      (exists es r, exit_handlers_installed base es /\ r <> 0 /\
         trace w' = trace w ++ es ++ [ECall (event_base_dispatch base) r] /\
         engine_answers (engine w) (trace w)
           (es ++ [ECall (event_base_dispatch base) r]))
  | Undefined => False
  end /\
  forall (sig events : Z) (w0 : world),
    Handler_ExitLoop sig events base w0
    = Ok tt (record (ECall (event_base_loopexit base None)
                       (engine w0 (trace w0) (event_base_loopexit base None)))
               w0).
Proof.
  cbv zeta. split; [|reflexivity].
  unfold Base_Dispatch, bind at 1.
  pose proof (SetExitLoopHandler_run (base_ this) SIGHUP w) as H1.
  destruct (SetExitLoopHandler (base_ this) SIGHUP w) as [[] w1|d w1|];
    [| |contradiction].
  2:{ destruct H1 as (e1 & F1 & T1 & A1). left. exists e1.
      split; [left; eauto|]. split; [assumption|]. split; [assumption|].
      intros r Hin. destruct F1 as [->|(ev & r' & _ & _ & ->)];
        simpl in Hin; intuition discriminate. }
  destruct H1 as (e1 & I1 & T1 & G1 & A1). unfold bind at 1.
  pose proof (SetExitLoopHandler_run (base_ this) SIGINT w1) as H2.
  rewrite G1, T1 in H2.
  destruct (SetExitLoopHandler (base_ this) SIGINT w1) as [[] w2|d w2|];
    [| |contradiction].
  2:{ destruct H2 as (e2 & F2 & T2 & A2). left. exists (e1 ++ e2).
      split; [right; left; eauto|].
      split; [now rewrite T2, <- app_assoc|].
      split; [apply engine_answers_app; split; [exact A1 | exact A2]|].
      intros r Hin. destruct I1 as (? & ? & _ & _ & ->).
      destruct F2 as [->|(ev & r' & _ & _ & ->)];
        simpl in Hin; intuition discriminate. }
  destruct H2 as (e2 & I2 & T2 & G2 & A2). unfold bind at 1.
  pose proof (SetExitLoopHandler_run (base_ this) SIGTERM w2) as H3.
  rewrite G2, T2 in H3.
  destruct (SetExitLoopHandler (base_ this) SIGTERM w2) as [[] w3|d w3|];
    [| |contradiction].
  2:{ destruct H3 as (e3 & F3 & T3 & A3). left. exists (e1 ++ e2 ++ e3).
      split; [right; right; eauto 10|].
      split; [now rewrite T3, <- !app_assoc|].
      split.
      { apply engine_answers_app. split; [exact A1|].
        apply engine_answers_app. split; [exact A2 | exact A3]. }
      intros r Hin. destruct I1 as (? & ? & _ & _ & ->).
      destruct I2 as (? & ? & _ & _ & ->).
      destruct F3 as [->|(ev & r' & _ & _ & ->)];
        simpl in Hin; intuition discriminate. }
  destruct H3 as (e3 & I3 & T3 & G3 & A3).
  assert (exit_handlers_installed (base_ this) (e1 ++ e2 ++ e3)) as Hall
    by (exists e1, e2, e3; auto).
  assert (trace w3 = trace w ++ e1 ++ e2 ++ e3) as T
    by (now rewrite T3, <- !app_assoc).
  assert (engine_answers (engine w) (trace w) (e1 ++ e2 ++ e3)) as A.
  { apply engine_answers_app. split; [exact A1|].
    apply engine_answers_app. split; [exact A2 | exact A3]. }
  unfold bind, libevent, CHECK_EQ.
  set (r := engine w3 (trace w3) (event_base_dispatch (base_ this))).
  assert (r = engine w (trace w ++ e1 ++ e2 ++ e3)
                (event_base_dispatch (base_ this))) as Hr
    by (unfold r; now rewrite G3, T).
  assert (engine_answers (engine w) (trace w)
            ((e1 ++ e2 ++ e3) ++ [ECall (event_base_dispatch (base_ this)) r]))
    as Afull.
  { apply engine_answers_app. split; [exact A|]. simpl. auto. }
  clearbody r. clear Hr.
  destruct (Z.eqb_spec r 0) as [E|E]; unfold ret, fatal; simpl.
  - subst r. exists (e1 ++ e2 ++ e3). split; [assumption|].
    split; [now rewrite T, <- !app_assoc | exact Afull].
  - right. exists (e1 ++ e2 ++ e3), r. split; [assumption|].
    split; [assumption|]. split; [now rewrite T, <- !app_assoc|].
    exact Afull.
Qed.

(** With an engine that obliges, the seven calls in order. *)
Example Base_Dispatch_obliging :
  Base_Dispatch {| base_ := 4096; dns_ := NULL |} (fresh_world obliging_engine)
  = Ok tt
      {| engine := obliging_engine;
         trace := [ECall (evsignal_new 4096 SIGHUP Fn_Handler_ExitLoop 4096) 4096;
                   ECall (event_add 4096 None) 0;
                   ECall (evsignal_new 4096 SIGINT Fn_Handler_ExitLoop 4096) 4098;
                   ECall (event_add 4098 None) 0;
                   ECall (evsignal_new 4096 SIGTERM Fn_Handler_ExitLoop 4096) 4100;
                   ECall (event_add 4100 None) 0;
                   ECall (event_base_dispatch 4096) 0];
         heap := [] |}.
Proof. reflexivity. Qed.

(** With one that fails, the abort at the first signal event. *)
Example Base_Dispatch_failing :
  Base_Dispatch {| base_ := 4096; dns_ := NULL |} (fresh_world failing_engine)
  = Fatal "Check failed: 'signal_event' Must be non NULL"
      {| engine := failing_engine;
         trace := [ECall (evsignal_new 4096 SIGHUP Fn_Handler_ExitLoop 4096)
                     NULL];
         heap := [] |}.
Proof. reflexivity. Qed.

(** ** [Base::GetDns] *)

Lemma Base_GetDns_first (this : Base) (w : world) :
  dns_ this = NULL ->
  let creation := evdns_base_new (base_ this) 1 in
  let d := engine w (trace w ++ [ELock]) creation in
  Base_GetDns this w
  = if d =? NULL
    then Fatal dns_diagnostic
           {| engine := engine w;
              trace := trace w ++ [ELock; ECall creation d];
              heap := heap w |}
    else Ok (d, {| base_ := base_ this; dns_ := d |})
           {| engine := engine w;
              trace := trace w ++ [ELock; ECall creation d; EUnlock];
              heap := heap w |}.
Proof.
  intros Hnull. cbv zeta.
  unfold Base_GetDns, bind, emit, libevent, CHECK_NOTNULL. rewrite Hnull.
  simpl.
  destruct (engine w (trace w ++ [ELock]) (evdns_base_new (base_ this) 1) =? NULL);
    unfold fatal, ret, record; simpl; now rewrite <- !app_assoc.
Qed.

Lemma Base_GetDns_again (this : Base) (w : world) :
  dns_ this <> NULL ->
  Base_GetDns this w
  = Ok (dns_ this, this)
       {| engine := engine w;
          trace := trace w ++ [ELock; EUnlock];
          heap := heap w |}.
Proof.
  intros Hset. apply Z.eqb_neq in Hset.
  unfold Base_GetDns, bind, emit. rewrite Hset.
  unfold ret. now rewrite record_record.
Qed.

Lemma GetDns_repeatedly_again (n : nat) (this : Base) (w : world) :
  dns_ this <> NULL ->
  exists es,
    creations es = 0%nat /\
    GetDns_repeatedly n this w
    = Ok (repeat (dns_ this) n, this)
         {| engine := engine w; trace := trace w ++ es; heap := heap w |}.
Proof.
  intros Hset. revert w. induction n as [|n IH]; intros w.
  - exists []. split; [reflexivity|]. simpl. unfold ret.
    rewrite app_nil_r. now destruct w.
  - simpl. unfold bind at 1. rewrite (Base_GetDns_again this w Hset). simpl.
    destruct (IH {| engine := engine w; trace := trace w ++ [ELock; EUnlock];
                    heap := heap w |}) as (es & Hes & Hrun).
    exists ([ELock; EUnlock] ++ es). split; [exact Hes|].
    unfold bind. rewrite Hrun. unfold ret. simpl. now rewrite <- app_assoc.
Qed.

(** *** Several threads *)

Lemma creations_app (es1 es2 : list event) :
  creations (es1 ++ es2) = (creations es1 + creations es2)%nat.
Proof. unfold creations. now rewrite List.filter_app, length_app. Qed.

Lemma creations_app_nothing (es es' : list event) :
  creations es' = 0%nat -> creations (es ++ es') = creations es.
Proof. intros H. rewrite creations_app, H. lia. Qed.

(** Replacing one element changes a count by what leaves and what comes. *)
Lemma count_insert {A} (f : A -> bool) (l : list A) (t : nat) (x y : A) :
  l !! t = Some x ->
  (length (List.filter f (<[t := y]> l)) + (if f x then 1 else 0)
   = length (List.filter f l) + (if f y then 1 else 0))%nat.
Proof.
  revert t. induction l as [|a l IH]; intros [|t] H; try discriminate H.
  - injection H as ->. simpl. destruct (f x), (f y); simpl; lia.
  - simpl in *. specialize (IH t H). destruct (f a); simpl; lia.
Qed.

(** Of what is counted at most once, two occurrences are the same one. *)
Lemma count_exclusive {A} (f : A -> bool) (l : list A) (i j : nat) (x y : A) :
  (length (List.filter f l) <= 1)%nat ->
  l !! i = Some x -> l !! j = Some y -> f x = true -> f y = true -> i = j.
Proof.
  revert i j. induction l as [|a l IH]; intros i j Hc Hi Hj Hx Hy;
    [discriminate Hi|].
  assert (forall k z, l !! k = Some z -> f z = true ->
            (1 <= length (List.filter f l))%nat) as Hpos.
  { clear. induction l as [|b l IHl]; intros [|k] z Hk Hz; try discriminate Hk.
    - injection Hk as ->. simpl. rewrite Hz. simpl. lia.
    - simpl in *. specialize (IHl k z Hk Hz). destruct (f b); simpl; lia. }
  destruct i as [|i], j as [|j]; simpl in *; [reflexivity| | |].
  - injection Hi as ->. rewrite Hx in Hc. simpl in Hc.
    specialize (Hpos j y Hj Hy). lia.
  - injection Hj as ->. rewrite Hy in Hc. simpl in Hc.
    specialize (Hpos i x Hi Hx). lia.
  - f_equal. apply IH; auto. destruct (f a); simpl in Hc; lia.
Qed.

Lemma lookup_insert_cases {A} (l : list A) (t t' : nat) (x y : A) :
  <[t := x]> l !! t' = Some y ->
  (t' = t /\ y = x) \/ (t' <> t /\ l !! t' = Some y).
Proof.
  intros H. apply list_lookup_insert_Some in H as [(-> & -> & _)|[Hne H]]; auto.
Qed.

Lemma race_invariant_entry (n : nat) (this : Base) :
  race_invariant (threads_at_entry n this) [].
Proof.
  assert (forall t p, repeat AtEntry n !! t = Some p -> p = AtEntry) as Hall.
  { induction n as [|n IH]; intros [|t] p H; simpl in H; try discriminate H.
    - now injection H as <-.
    - eauto. }
  split; simpl.
  - induction n as [|n IH]; [reflexivity|]. simpl. apply IH.
    intros t p H. apply (Hall (S t)). exact H.
  - intros t d H. apply Hall in H. discriminate H.
  - intros t H. apply Hall in H. discriminate H.
  - intros t d H. apply Hall in H. discriminate H.
  - unfold creations. simpl. lia.
  - reflexivity.
Qed.

Ltac split_thread H :=
  apply lookup_insert_cases in H as [[? H]|[? H]];
  [try discriminate H | ].

Lemma GetDns_step_invariant (t : nat) (s s' : racing) (es : list event)
  (w w' : world) :
  race_invariant s es ->
  GetDns_step t s w = Ok s' w' ->
  exists es', trace w' = trace w ++ es' /\ race_invariant s' (es ++ es').
Proof.
  intros [I1 I2 I3 I4 I5 I6].
  assert (length (List.filter inside (r_pcs s)) <= 1)%nat as Hle
    by (rewrite I1; destruct (r_locked s); lia).
  assert (forall t' p, r_pcs s !! t' = Some p -> inside p = true ->
            forall q, r_pcs s !! t = Some q -> inside q = true -> t' = t)
    as Hex by (intros; eapply count_exclusive; eauto).
  unfold GetDns_step. destruct (r_pcs s !! t) as [[| |d| |d]|] eqn:Ht.
  - (* waiting for, or taking, the mutex *)
    destruct (r_locked s) eqn:Hl.
    + unfold ret. intros [= <- <-]. exists []. rewrite !app_nil_r.
      split; [reflexivity|]. split; auto. now rewrite Hl.
    + unfold bind, emit, ret. intros [= <- <-]. exists [ELock].
      split; [reflexivity|].
      split; simpl; rewrite ?creations_app_nothing by reflexivity.
      * pose proof (count_insert inside _ t _ AtTest Ht) as Hc.
        simpl in Hc. lia.
      * intros t' d H. split_thread H. eauto.
      * intros t' H. split_thread H. eauto.
      * intros t' d H. split_thread H. eauto.
      * exact I5.
      * intros Hnull Hnone. apply I6; [exact Hnull|].
        intros t' d H. destruct (decide (t' = t)) as [->|Hne]; [congruence|].
        apply (Hnone t' d). now rewrite list_lookup_insert_ne.
  - (* the test of dns_ *)
    destruct (Z.eqb_spec (dns_ (r_this s)) NULL) as [Hnull|Hset].
    + unfold bind, libevent, CHECK_NOTNULL.
      set (d := engine w (trace w) (evdns_base_new (base_ (r_this s)) 1)).
      destruct (Z.eqb_spec d NULL) as [Hd|Hd]; unfold fatal, ret;
        [intros H; discriminate H|].
      intros [= <- <-].
      exists [ECall (evdns_base_new (base_ (r_this s)) 1) d].
      split; [reflexivity|].
      assert (creations es = 0%nat) as Hzero.
      { apply I6; [exact Hnull|]. intros t' d' H.
        assert (t' = t) as -> by (eapply Hex; eauto). congruence. }
      assert (creations (es ++ [ECall (evdns_base_new (base_ (r_this s)) 1) d])
              = 1%nat) as Hone
        by (rewrite creations_app, Hzero; reflexivity).
      split; simpl; rewrite ?Hone.
      * pose proof (count_insert inside _ t _ (AtStore d) Ht) as Hc.
        simpl in Hc. lia.
      * intros t' d' H. split_thread H.
        -- injection H as ->. auto.
        -- exfalso. assert (t' = t) by (eapply Hex; eauto). contradiction.
      * intros t' H. split_thread H. eauto.
      * intros t' d' H. split_thread H. eauto.
      * lia.
      * intros _ Hnone. exfalso. apply (Hnone t d).
        apply list_lookup_insert_eq. now apply lookup_lt_Some in Ht.
    + unfold ret. intros [= <- <-]. exists []. rewrite !app_nil_r.
      split; [reflexivity|]. split; simpl.
      * pose proof (count_insert inside _ t _ AtReturn Ht) as Hc.
        simpl in Hc. lia.
      * intros t' d H. split_thread H. eauto.
      * intros t' H. split_thread H; eauto.
      * intros t' d H. split_thread H. eauto.
      * exact I5.
      * intros Hnull. contradiction.
  - (* the assignment to dns_ *)
    destruct (I2 t d Ht) as (Hd & Hnull & Hone).
    unfold ret. intros [= <- <-]. exists []. rewrite !app_nil_r.
    split; [reflexivity|]. split; simpl.
    + pose proof (count_insert inside _ t _ AtReturn Ht) as Hc.
      simpl in Hc. lia.
    + intros t' d' H. split_thread H.
      exfalso. assert (t' = t) by (eapply Hex; eauto). contradiction.
    + intros _ _. exact Hd.
    + intros t' d' H. split_thread H.
      destruct (I4 t' d' H) as [-> Hne]. contradiction.
    + exact I5.
    + intros Hd'. contradiction.
  - (* the return and the release of the mutex *)
    unfold bind, emit, ret. intros [= <- <-]. exists [EUnlock].
    split; [reflexivity|].
    split; simpl; rewrite ?creations_app_nothing by reflexivity.
    + pose proof (count_insert inside _ t _ (Returned (dns_ (r_this s))) Ht)
        as Hc.
      simpl in Hc. lia.
    + intros t' d H. split_thread H. eauto.
    + intros t' H. split_thread H. eauto.
    + intros t' d H. split_thread H; [|eauto].
      injection H as ->. split; [reflexivity | eauto].
    + exact I5.
    + intros Hnull Hnone. apply I6; [exact Hnull|].
      intros t' d H. destruct (decide (t' = t)) as [->|Hne]; [congruence|].
      apply (Hnone t' d). now rewrite list_lookup_insert_ne.
  - unfold ret. intros [= <- <-]. exists []. rewrite !app_nil_r.
    split; [reflexivity|]. split; auto.
  - unfold ret. intros [= <- <-]. exists []. rewrite !app_nil_r.
    split; [reflexivity|]. split; auto.
Qed.

(** A step either is taken or aborts on the null handle. *)
Lemma GetDns_step_outcome (t : nat) (s : racing) (w : world) :
  match GetDns_step t s w with
  | Ok _ _ => True
  | Fatal d _ => d = dns_diagnostic
  | Undefined => False
  end.
Proof.
  unfold GetDns_step.
  destruct (r_pcs s !! t) as [[| |d| |d]|]; try exact I.
  - destruct (r_locked s); exact I.
  - destruct (dns_ (r_this s) =? NULL); [|exact I].
    unfold bind, libevent, CHECK_NOTNULL.
    destruct (_ =? NULL); [reflexivity | exact I].
Qed.

Lemma GetDns_threads_invariant (schedule : list nat) (s : racing)
  (es : list event) (w : world) :
  race_invariant s es ->
  match GetDns_threads schedule s w with
  | Ok s' w' =>
      exists es', trace w' = trace w ++ es' /\ race_invariant s' (es ++ es')
  | Fatal d _ => d = dns_diagnostic
  | Undefined => False
  end.
Proof.
  revert s es w. induction schedule as [|t rest IH]; intros s es w Inv.
  - simpl. exists []. now rewrite !app_nil_r.
  - simpl. unfold bind.
    pose proof (GetDns_step_outcome t s w) as Hout.
    destruct (GetDns_step t s w) as [s1 w1|d w1|] eqn:Hstep;
      [|exact Hout|exact Hout].
    destruct (GetDns_step_invariant t s s1 es w w1 Inv Hstep)
      as (es1 & Htr1 & Inv1).
    specialize (IH s1 (es ++ es1) w1 Inv1).
    destruct (GetDns_threads rest s1 w1) as [s' w'|d w'|]; [|exact IH|exact IH].
    destruct IH as (es' & Htr & Inv'). exists (es1 ++ es').
    split; [now rewrite Htr, Htr1, <- app_assoc | now rewrite app_assoc].
Qed.

(** A thread on its own takes the steps of the sequential [GetDns]. *)
Lemma GetDns_one_thread (this : Base) (w : world) :
  GetDns_threads [0; 0; 0; 0]%nat (threads_at_entry 1 this) w
  = match Base_GetDns this w with
    | Ok (d, this') w' =>
        Ok {| r_this := this'; r_locked := false; r_pcs := [Returned d] |} w'
    | Fatal d w' => Fatal d w'
    | Undefined => Undefined
    end.
Proof.
  destruct (Z.eq_dec (dns_ this) NULL) as [Hnull|Hset].
  - rewrite (Base_GetDns_first this w Hnull). cbv zeta.
    unfold GetDns_threads, GetDns_step, threads_at_entry, bind, emit,
      libevent, CHECK_NOTNULL, ret, fatal.
    simpl. rewrite Hnull. simpl.
    destruct (engine w (trace w ++ [ELock]) (evdns_base_new (base_ this) 1)
              =? NULL); simpl; unfold record; simpl;
      now rewrite <- !app_assoc.
  - rewrite (Base_GetDns_again this w Hset).
    unfold GetDns_threads, GetDns_step, threads_at_entry, bind, emit, ret.
    apply Z.eqb_neq in Hset. simpl. rewrite Hset. simpl.
    unfold record. simpl. rewrite <- !app_assoc. now destruct this.
Qed.

(** *** Lazy creation *)

(** C8: [GetDns] creates the resolver handle on the first call, with
    [dns_lock_] held, and stores it; a call on an object that has a handle
    returns that handle and creates nothing.  So however many times it is
    called in a row, every call returns the same non-null handle, the
    object ends up holding it, and at most one handle is created; the only
    other way out is the abort of the first call when libevent returns no
    handle.  The same holds of any number of threads that call it at once,
    however their steps are interleaved: at most one handle is created and
    every thread that has returned holds the handle stored in the
    object. *)
Theorem Base_GetDns_creates_once (this : Base) (w : world) :
  (dns_ this = NULL ->
   let creation := evdns_base_new (base_ this) 1 in
   let d := engine w (trace w ++ [ELock]) creation in
   d <> NULL ->
   Base_GetDns this w
   = Ok (d, {| base_ := base_ this; dns_ := d |})
        {| engine := engine w;
           trace := trace w ++ [ELock; ECall creation d; EUnlock];
           heap := heap w |}) /\
  (dns_ this <> NULL ->
   Base_GetDns this w
   = Ok (dns_ this, this)
        {| engine := engine w;
           trace := trace w ++ [ELock; EUnlock];
           heap := heap w |}) /\
  (forall n : nat,
     match GetDns_repeatedly n this w with
     | Ok (ds, this') w' =>
         exists es, trace w' = trace w ++ es /\
           (creations es <= 1)%nat /\
           (dns_ this <> NULL -> creations es = 0%nat /\ this' = this) /\
           length ds = n /\
           forall d, In d ds -> d = dns_ this' /\ d <> NULL
     | Fatal _ w' =>
         dns_ this = NULL /\
         trace w'
         = trace w ++ [ELock; ECall (evdns_base_new (base_ this) 1) NULL]
     | Undefined => False
     end) /\
  (forall (n : nat) (schedule : list nat),
     match GetDns_threads schedule (threads_at_entry n this) w with
     | Ok s w' =>
         exists es, trace w' = trace w ++ es /\
           (creations es <= 1)%nat /\
           forall t d, r_pcs s !! t = Some (Returned d) ->
             d = dns_ (r_this s) /\ d <> NULL
     | Fatal d _ => d = dns_diagnostic
     | Undefined => False
     end).
Proof.
  split; [|split; [|split]]; cycle 3.
  { intros n schedule.
    pose proof (GetDns_threads_invariant schedule _ [] w
                  (race_invariant_entry n this)) as H.
    destruct (GetDns_threads schedule (threads_at_entry n this) w)
      as [s w'|d w'|]; [|exact H|exact H].
    destruct H as (es & Htr & Inv). exists es. simpl in Inv.
    split; [exact Htr|]. split; [apply Inv | apply Inv]. }
  - intros Hnull. cbv zeta. intros Hd.
    rewrite (Base_GetDns_first this w Hnull). cbv zeta.
    apply Z.eqb_neq in Hd. now rewrite Hd.
  - apply Base_GetDns_again.
  - intros n. destruct (Z.eq_dec (dns_ this) NULL) as [Hnull|Hset].
    + destruct n as [|n]; simpl.
      * exists []. rewrite app_nil_r. repeat split; auto; contradiction.
      * unfold bind at 1. rewrite (Base_GetDns_first this w Hnull). cbv zeta.
        set (d := engine w (trace w ++ [ELock]) (evdns_base_new (base_ this) 1)).
        destruct (Z.eqb_spec d NULL) as [E|E].
        -- rewrite E. split; [assumption|reflexivity].
        -- simpl. unfold bind.
           match goal with |- context [GetDns_repeatedly n ?t ?v] =>
             destruct (GetDns_repeatedly_again n t v E) as (es & Hes & Hrun) end.
           rewrite Hrun. unfold ret. simpl.
           eexists. split; [now rewrite <- app_assoc|].
           split; [unfold creations in *; simpl; lia|].
           split; [contradiction|].
           split; [now rewrite repeat_length|].
           intros d' [<-|Hin]; [auto|].
           apply repeat_spec in Hin. subst d'. auto.
    + destruct (GetDns_repeatedly_again n this w Hset) as (es & Hes & Hrun).
      rewrite Hrun. exists es. simpl. split; [reflexivity|].
      split; [lia|]. split; [auto|]. split; [apply repeat_length|].
      intros d Hin. apply repeat_spec in Hin. subst d. auto.
Qed.

(** Two threads, the second arriving while the first holds the mutex. *)
Example GetDns_two_threads :
  GetDns_threads [0; 1; 0; 1; 0; 0; 1; 1; 1]%nat
    (threads_at_entry 2 {| base_ := 4096; dns_ := NULL |})
    (fresh_world obliging_engine)
  = Ok {| r_this := {| base_ := 4096; dns_ := 4097 |};
          r_locked := false;
          r_pcs := [Returned 4097; Returned 4097] |}
       {| engine := obliging_engine;
          trace := [ELock; ECall (evdns_base_new 4096 1) 4097; EUnlock;
                    ELock; EUnlock];
          heap := [] |}.
Proof. reflexivity. Qed.

Lemma Base_GetDns_creates_once_witness :
  let this := {| base_ := 4096; dns_ := NULL |} in
  let w := fresh_world obliging_engine in
  Base_GetDns this w
  = Ok (4097, {| base_ := 4096; dns_ := 4097 |})
       {| engine := obliging_engine;
          trace := [ELock; ECall (evdns_base_new 4096 1) 4097; EUnlock];
          heap := [] |} /\
  Base_GetDns {| base_ := 4096; dns_ := 4097 |} w
  = Ok (4097, {| base_ := 4096; dns_ := 4097 |})
       {| engine := obliging_engine; trace := [ELock; EUnlock]; heap := [] |}.
Proof.
  cbv zeta. split.
  - apply (proj1 (Base_GetDns_creates_once
                    {| base_ := 4096; dns_ := NULL |}
                    (fresh_world obliging_engine)));
      [reflexivity | discriminate].
  - apply (proj1 (proj2 (Base_GetDns_creates_once
                           {| base_ := 4096; dns_ := 4097 |}
                           (fresh_world obliging_engine)))).
    discriminate.
Defined.

(** ** [Event::Add] *)


(** Converting the truncation and converting the double itself give the
    same [long]. *)
Lemma double_to_long_trunc (x : double) :
  double_to_long (trunc x) = double_to_long x.
Proof.
  destruct x as [s|s| |s m e]; try reflexivity. simpl.
  destruct (Z.leb_spec 0 e) as [He|He]; [reflexivity|].
  assert (0 <= Z.shiftr (Z.pos m) (- e)) as Hq by (apply Z.shiftr_nonneg; lia).
  assert (integer_part m e = Z.shiftr (Z.pos m) (- e)) as Hip.
  { unfold integer_part. destruct (Z.leb_spec 0 e); [lia|reflexivity]. }
  destruct (Z.shiftl (Z.shiftr (Z.pos m) (- e)) (- e)) as [|m'|m'] eqn:Hs.
  - apply Z.shiftl_eq_0_iff in Hs; [|lia].
    simpl. rewrite Hip, Hs. now destruct s.
  - simpl. f_equal.
    assert (integer_part m' e = integer_part m e) as ->; [|reflexivity].
    rewrite Hip. unfold integer_part.
    destruct (Z.leb_spec 0 e); [lia|].
    rewrite <- Hs, Z.shiftr_shiftl_l by lia.
    now rewrite Z.sub_diag, Z.shiftl_0_r.
  - exfalso.
    assert (0 <= Z.shiftl (Z.shiftr (Z.pos m) (- e)) (- e))
      by (apply Z.shiftl_nonneg; exact Hq).
    lia.
Qed.


Lemma Event_Add_arm (this : Event) (tvp : option timeval) (w : world) :
  (r <- libevent (event_add (ev_ this) tvp) ;;
   CHECK_EQ "event_add(ev_, tvp) == 0" r 0) w
  = armed_with this tvp w.
Proof.
  unfold bind, libevent, CHECK_EQ, armed_with. cbv zeta.
  destruct (engine w (trace w) (event_add (ev_ this) tvp) =? 0); reflexivity.
Qed.

Lemma double_to_long_pure (x : double) (w : world) :
  match double_to_long x w with
  | Ok _ w' => w' = w
  | Fatal _ _ => False
  | Undefined => True
  end.
Proof.
  destruct x as [s|s| |s m e]; simpl; auto.
  destruct (_ && _); simpl; auto.
Qed.

Lemma integer_part_nonneg (m : positive) (e : Z) : 0 <= integer_part m e.
Proof.
  unfold integer_part. destruct (Z.leb_spec 0 e).
  - apply Z.mul_nonneg_nonneg; [lia | apply Z.pow_nonneg; lia].
  - apply Z.shiftr_nonneg. lia.
Qed.





(** Neither negative nor greater than or equal to zero: a NaN is armed
    without expiration. *)
Lemma Event_Add_nan (this : Event) (w : world) :
  Event_Add this S754_nan w = armed_with this None w.
Proof. unfold Event_Add. unfold bind at 1. simpl. apply Event_Add_arm. Qed.

(** Three tenths of a second is 300000 microseconds, and a failing
    [event_add] aborts. *)
Example Event_Add_three_tenths :
  Event_Add {| cb_ := 0%nat; ev_ := 4097 |} (SFopp minus_three_tenths)
    (fresh_world failing_engine)
  = Fatal "Check failed: event_add(ev_, tvp) == 0"
      {| engine := failing_engine;
         trace := [ECall (event_add 4097
                            (Some {| tv_sec := 0; tv_usec := 300000 |})) (-1)];
         heap := [] |}.
Proof. reflexivity. Qed.

(** ** The object store under [delete] and [new] *)

Lemma load_cleared (p : ptr) (h : list (option object)) :
  load p (<[index_of_addr p := None]> h) = None.
Proof.
  unfold load. destruct (p <=? 0); [reflexivity|].
  destruct (decide (index_of_addr p < length h)%nat) as [Hlt|Hge].
  - now rewrite list_lookup_insert_eq.
  - rewrite list_insert_ge by lia.
    now rewrite (proj2 (lookup_ge_None h (index_of_addr p))) by lia.
Qed.

Lemma load_insert_other (p q : ptr) (x : option object)
  (h : list (option object)) :
  0 < p -> p <> q -> load q (<[index_of_addr p := x]> h) = load q h.
Proof.
  intros Hp Hne. unfold load. destruct (Z.leb_spec q 0); [reflexivity|].
  rewrite list_lookup_insert_ne; [reflexivity|].
  unfold index_of_addr. lia.
Qed.

Lemma load_app_old (p : ptr) (h : list (option object)) (x : option object) :
  (index_of_addr p < length h)%nat -> load p (h ++ [x]) = load p h.
Proof. intros Hlt. unfold load. now rewrite lookup_app_l. Qed.

Lemma load_beyond (p : ptr) (h : list (option object)) :
  (length h <= index_of_addr p)%nat -> load p h = None.
Proof.
  intros Hge. unfold load. destruct (p <=? 0); [reflexivity|].
  now rewrite (proj2 (lookup_ge_None h (index_of_addr p))).
Qed.

Lemma operator_delete_run (p : ptr) (o : object) (w : world) :
  load p (heap w) = Some o ->
  operator_delete p w
  = Ok tt {| engine := engine w;
             trace := trace w ++ [EDelete p];
             heap := <[index_of_addr p := None]> (heap w) |}.
Proof. intros H. unfold operator_delete. now rewrite H. Qed.

(** ** [HttpServer::~HttpServer] *)

Lemma delete_Handler_run (p : ptr) (h : Handler) (w : world) :
  load p (heap w) = Some (OHandler h) ->
  delete_Handler p w
  = Ok tt {| engine := engine w;
             trace := trace w ++ [EDelete p];
             heap := <[index_of_addr p := None]> (heap w) |}.
Proof.
  intros H. unfold delete_Handler.
  destruct (load_Some_inv _ _ _ H) as (Hpos & _ & _).
  destruct (Z.eqb_spec p NULL) as [E|_]; [unfold NULL in E; lia|].
  unfold bind, load_Handler. rewrite H.
  now apply operator_delete_run with (o := OHandler h).
Qed.

Lemma delete_each_run (l : list ptr) (w : world) :
  List.NoDup l ->
  (forall p, In p l -> exists h, load p (heap w) = Some (OHandler h)) ->
  exists w',
    delete_each l w = Ok tt w' /\
    engine w' = engine w /\
    trace w' = trace w ++ map EDelete l /\
    (forall p, In p l -> load p (heap w') = None) /\
    (forall q, ~ In q l -> load q (heap w') = load q (heap w)).
Proof.
  revert w. induction l as [|p l IH]; intros w Hnd Hlive.
  - exists w. simpl. rewrite app_nil_r. repeat split; auto. contradiction.
  - apply NoDup_cons_iff in Hnd as [Hnotin Hnd].
    destruct (Hlive p (or_introl eq_refl)) as [h Hp].
    destruct (load_Some_inv _ _ _ Hp) as (Hpos & _ & _).
    simpl. unfold bind. rewrite (delete_Handler_run p h w Hp).
    set (w1 := {| engine := engine w; trace := trace w ++ [EDelete p];
                  heap := <[index_of_addr p := None]> (heap w) |}).
    destruct (IH w1 Hnd) as (w' & Hrun & Heng & Htr & Hgone & Hkept).
    { intros q Hq. simpl. rewrite load_insert_other; [auto using in_cons| lia |].
      intros ->. contradiction. }
    exists w'. split; [exact Hrun|]. split; [exact Heng|].
    split; [rewrite Htr; simpl; now rewrite <- app_assoc|]. split.
    + intros q [<-|Hq]; [|auto].
      rewrite (Hkept p Hnotin). simpl. apply load_cleared.
    + intros q Hq. rewrite Hkept by (intros Hin; apply Hq; now right).
      simpl. apply load_insert_other; [lia|].
      intros ->. apply Hq. now left.
Qed.

Lemma deletions_app (p : ptr) (es1 es2 : list event) :
  deletions p (es1 ++ es2) = (deletions p es1 + deletions p es2)%nat.
Proof. unfold deletions. now rewrite List.filter_app, length_app. Qed.

Lemma deletions_absent (p : ptr) (l : list ptr) :
  ~ In p l -> deletions p (map EDelete l) = 0%nat.
Proof.
  induction l as [|q l IH]; intros Hnotin; [reflexivity|].
  unfold deletions in *. simpl.
  destruct (Z.eqb_spec q p) as [->|_]; [exfalso; apply Hnotin; now left|].
  apply IH. intros Hin. apply Hnotin. now right.
Qed.

Lemma deletions_once (p : ptr) (l : list ptr) :
  List.NoDup l -> In p l -> deletions p (map EDelete l) = 1%nat.
Proof.
  induction l as [|q l IH]; intros Hnd Hin; [contradiction|].
  apply NoDup_cons_iff in Hnd as [Hnotin Hnd].
  change (map EDelete (q :: l)) with ([EDelete q] ++ map EDelete l).
  rewrite deletions_app. unfold deletions at 1. simpl.
  destruct Hin as [->|Hin].
  - rewrite Z.eqb_refl. simpl. now rewrite deletions_absent.
  - destruct (Z.eqb_spec q p) as [->|_]; [contradiction|].
    simpl. now apply IH.
Qed.

Lemma HttpServer_dtor_run (this : HttpServer) (w : world) :
  owns_live_handlers w this ->
  exists w',
    HttpServer_dtor this w = Ok tt w' /\
    trace w'
    = trace w
      ++ ECall (evhttp_free (http_ this))
               (engine w (trace w) (evhttp_free (http_ this)))
         :: map EDelete (handlers_ this) /\
    (forall p, In p (handlers_ this) -> load p (heap w') = None) /\
    (forall q, ~ In q (handlers_ this) -> load q (heap w') = load q (heap w)).
Proof.
  intros [Hnd Hlive]. unfold HttpServer_dtor, bind, libevent.
  set (w1 := record _ w).
  destruct (delete_each_run (handlers_ this) w1 Hnd Hlive)
    as (w' & Hrun & _ & Htr & Hgone & Hkept).
  exists w'. split; [exact Hrun|]. split; [|split; assumption].
  rewrite Htr. simpl. now rewrite <- app_assoc.
Qed.

(** C7: the destructor of a server that owns its [Handler] records calls
    [evhttp_free] on the endpoint first and after that deletes the records
    of [handlers_], in order and nothing else; each record of the
    collection is deleted exactly once and is gone afterwards. *)
Theorem HttpServer_dtor_frees_then_deletes (this : HttpServer) (w : world) :
  owns_live_handlers w this ->
  exists w' r,
    HttpServer_dtor this w = Ok tt w' /\
    trace w'
    = trace w ++ ECall (evhttp_free (http_ this)) r
                 :: map EDelete (handlers_ this) /\
    forall p, In p (handlers_ this) ->
      deletions p (ECall (evhttp_free (http_ this)) r
                   :: map EDelete (handlers_ this)) = 1%nat /\
      load p (heap w') = None.
Proof.
  intros Hown.
  destruct (HttpServer_dtor_run this w Hown) as (w' & Hrun & Htr & Hgone & _).
  exists w', (engine w (trace w) (evhttp_free (http_ this))).
  split; [exact Hrun|]. split; [exact Htr|].
  intros p Hin. split; [|auto].
  change (deletions p (map EDelete (handlers_ this)) = 1%nat).
  apply deletions_once; [apply Hown | exact Hin].
Qed.

Lemma two_handler_server_owns :
  owns_live_handlers two_handler_world two_handler_server.
Proof.
  split.
  - simpl. repeat constructor; simpl; intuition discriminate.
  - simpl. intros p [<-|[<-|[]]]; eexists; reflexivity.
Defined.

Lemma HttpServer_dtor_frees_then_deletes_witness :
  exists w' r,
    HttpServer_dtor two_handler_server two_handler_world = Ok tt w' /\
    trace w' = [] ++ ECall (evhttp_free 4096) r :: [EDelete 1; EDelete 2] /\
    forall p, In p [1; 2] ->
      deletions p (ECall (evhttp_free 4096) r :: [EDelete 1; EDelete 2]) = 1%nat /\
      load p (heap w') = None.
Proof.
  exact (HttpServer_dtor_frees_then_deletes two_handler_server
           two_handler_world two_handler_server_owns).
Defined.

Example HttpServer_dtor_two_handlers :
  HttpServer_dtor two_handler_server two_handler_world
  = Ok tt {| engine := obliging_engine;
             trace := [ECall (evhttp_free 4096) 0; EDelete 1; EDelete 2];
             heap := [None; None] |}.
Proof. reflexivity. Qed.

(** Deleting a record twice is undefined: a collection with a repeated
    pointer is not one the destructor can be run on. *)
Example HttpServer_dtor_repeated_pointer :
  HttpServer_dtor {| http_ := 4096; handlers_ := [1; 1] |} two_handler_world
  = Undefined.
Proof. reflexivity. Qed.

(** ** The handler collection of a server *)

Lemma HttpServer_ctor_owns (base : Base) (w w' : world) (this : HttpServer) :
  HttpServer_ctor base w = Ok this w' -> owns_live_handlers w' this.
Proof.
  unfold HttpServer_ctor, Base_HttpNew, bind, libevent, CHECK_NOTNULL.
  destruct (engine w (trace w) (evhttp_new (base_ base)) =? NULL);
    unfold fatal, ret; simpl; [intros H; discriminate H|].
  intros [= <- <-]. split; [constructor | intros p []].
Qed.

Lemma HttpServer_AddHandler_owns (this this' : HttpServer) (path : string)
  (cb : closure) (ok : bool) (w w' : world) :
  owns_live_handlers w this ->
  HttpServer_AddHandler this path cb w = Ok (ok, this') w' ->
  owns_live_handlers w' this'.
Proof.
  intros [Hnd Hlive]. rewrite HttpServer_AddHandler_run. cbv zeta.
  intros [= _ <- <-]. simpl.
  assert (forall p, In p (handlers_ this) ->
            (index_of_addr p < length (heap w))%nat) as Hold.
  { intros p Hp. destruct (Hlive p Hp) as [h Hh].
    now destruct (load_Some_inv _ _ _ Hh) as (_ & Hlt & _). }
  split.
  - apply List.NoDup_app; [exact Hnd | repeat constructor; auto |].
    intros p Hp [<-|[]]. apply Hold in Hp. rewrite index_addr in Hp. lia.
  - intros p Hp. apply in_app_or in Hp as [Hp|[<-|[]]]; simpl.
    + rewrite load_app_old by auto. auto.
    + rewrite load_fresh. eauto.
Qed.

(** C10: [AddHandler] allocates the [Handler] record and appends it to
    [handlers_] before [evhttp_set_cb] is called, and it hands the
    collection back with the record in it whatever [evhttp_set_cb] answers:
    when the answer is a failure and the result [false], the record is
    still in the collection, alive, and nothing was deleted.  It is the
    destructor of the server that deletes it, once. *)
Theorem HttpServer_AddHandler_keeps_record (this : HttpServer) (path : string)
  (cb : closure) (w : world) :
  let handler := addr_of_index (length (heap w)) in
  let registration := evhttp_set_cb (http_ this) path Fn_HandleRequest handler in
  exists r this' w',
    HttpServer_AddHandler this path cb w = Ok (r =? 0, this') w' /\
    trace w' = trace w ++ [ENew handler; ECall registration r] /\
    load handler (heap w) = None /\
    handlers_ this' = handlers_ this ++ [handler] /\
    load handler (heap w')
      = Some (OHandler {| path := path; cb := cb |}) /\
    (r <> 0 ->
     In handler (handlers_ this') /\
     deletions handler [ENew handler; ECall registration r] = 0%nat) /\
    (owns_live_handlers w this ->
     exists w'' r',
       HttpServer_dtor this' w' = Ok tt w'' /\
       trace w''
       = trace w' ++ ECall (evhttp_free (http_ this')) r'
                     :: map EDelete (handlers_ this') /\
       deletions handler (map EDelete (handlers_ this')) = 1%nat /\
       load handler (heap w'') = None).
Proof.
  cbv zeta.
  pose proof (HttpServer_AddHandler_run this path cb w) as Hrun.
  cbv zeta in Hrun.
  eexists _, _, _. split; [exact Hrun|]. simpl.
  split; [reflexivity|].
  split; [apply load_beyond; rewrite index_addr; lia|].
  split; [reflexivity|].
  split; [apply load_fresh|].
  split.
  - intros _. split; [apply in_or_app; right; now left | reflexivity].
  - intros Hown.
    pose proof (HttpServer_AddHandler_owns _ _ _ _ _ _ _ Hown Hrun) as Hown'.
    destruct (HttpServer_dtor_run _ _ Hown') as (w'' & Hd & Htr & Hgone & _).
    exists w''. eexists. split; [exact Hd|]. split; [exact Htr|].
    assert (In (addr_of_index (length (heap w)))
              (handlers_ this ++ [addr_of_index (length (heap w))])) as Hin
      by (apply in_or_app; right; now left).
    split; [|apply Hgone; exact Hin].
    apply deletions_once; [apply Hown' | exact Hin].
Qed.

Lemma HttpServer_AddHandler_keeps_record_witness :
  let registration := evhttp_set_cb 4096 "/ct/v1/get-roots" Fn_HandleRequest 3 in
  exists r this' w',
    HttpServer_AddHandler two_handler_server "/ct/v1/get-roots" 2%nat
      {| engine := failing_engine; trace := [];
         heap := heap two_handler_world |}
    = Ok (r =? 0, this') w' /\
    trace w' = [] ++ [ENew 3; ECall registration r] /\
    handlers_ this' = [1; 2] ++ [3] /\
    (r <> 0 -> In 3 (handlers_ this')).
Proof.
  cbv zeta.
  destruct (HttpServer_AddHandler_keeps_record two_handler_server
              "/ct/v1/get-roots" 2%nat
              {| engine := failing_engine; trace := [];
                 heap := heap two_handler_world |})
    as (r & this' & w' & Hrun & Htr & _ & Hh & _ & Hfail & _).
  exists r, this', w'. split; [exact Hrun|]. split; [exact Htr|].
  split; [exact Hh|]. intros Hr. now apply Hfail.
Defined.

(** On the error path: the registration fails, [false] is returned, the
    record stays. *)
Example HttpServer_AddHandler_registration_fails :
  HttpServer_AddHandler two_handler_server "/ct/v1/get-roots" 2%nat
    {| engine := failing_engine; trace := []; heap := heap two_handler_world |}
  = Ok (false, {| http_ := 4096; handlers_ := [1; 2; 3] |})
       {| engine := failing_engine;
          trace := [ENew 3;
                    ECall (evhttp_set_cb 4096 "/ct/v1/get-roots"
                             Fn_HandleRequest 3) (-1)];
          heap := heap two_handler_world
                  ++ [Some (OHandler {| path := "/ct/v1/get-roots";
                                        cb := 2%nat |})] |}.
Proof. reflexivity. Qed.

(** ** [HttpRequest]: destruction and completion *)

Lemma delete_HttpRequest_run (self : ptr) (this : HttpRequest) (w : world) :
  load self (heap w) = Some (OHttpRequest this) ->
  let free := evhttp_request_free (req_ this) in
  delete_HttpRequest self w
  = Ok tt {| engine := engine w;
             trace := trace w
                      ++ (if req_ this =? NULL then []
                          else [ECall free (engine w (trace w) free)])
                      ++ [EDelete self];
             heap := <[index_of_addr self := None]> (heap w) |}.
Proof.
  intros H. cbv zeta. unfold delete_HttpRequest.
  destruct (load_Some_inv _ _ _ H) as (Hpos & _ & _).
  destruct (Z.eqb_spec self NULL) as [E|_]; [unfold NULL in E; lia|].
  unfold bind at 1. unfold load_HttpRequest at 1. rewrite H.
  unfold bind, HttpRequest_dtor.
  destruct (req_ this =? NULL); unfold ret, bind, libevent; simpl.
  - now apply operator_delete_run with (o := OHttpRequest this).
  - unfold operator_delete. simpl. rewrite H. now rewrite <- app_assoc.
Qed.

Lemma load_stored (p : ptr) (o o' : object) (h : list (option object)) :
  load p h = Some o -> load p (<[index_of_addr p := Some o']> h) = Some o'.
Proof.
  intros H. destruct (load_Some_inv _ _ _ H) as (Hpos & Hlt & _).
  unfold load. destruct (Z.leb_spec p 0); [lia|].
  now rewrite list_lookup_insert_eq.
Qed.

Lemma HttpRequest_Done_run (o : eval_order) (self : ptr) (this : HttpRequest)
  (w : world) :
  load self (heap w) = Some (OHttpRequest this) ->
  req_ this <> NULL ->
  HttpRequest_Done o (req_ this) self w
  = Ok tt {| engine := engine w;
             trace := trace w ++ [EUser (callback_ this) [self]; EDelete self];
             heap := <[index_of_addr self := None]> (heap w) |}.
Proof.
  intros H Hreq.
  destruct (load_Some_inv _ _ _ H) as (Hpos & _ & _).
  assert ((self =? NULL) = false) as Hself by (apply Z.eqb_neq; unfold NULL; lia).
  apply Z.eqb_neq in Hreq.
  unfold HttpRequest_Done, CHECK_NOTNULL. rewrite Hself, Hreq.
  unfold bind at 1. unfold ret at 1.
  unfold bind at 1.
  assert (eval_args o (this0 <- load_HttpRequest self ;; ret (req_ this0))
            (ret (req_ this)) w = Ok (req_ this, req_ this) w) as ->.
  { destruct o; unfold eval_args, bind, load_HttpRequest, ret; now rewrite H. }
  unfold bind at 1. unfold CHECK_EQ. simpl fst. simpl snd.
  rewrite Z.eqb_refl. unfold ret at 1.
  unfold bind at 1. unfold load_HttpRequest at 1. rewrite H.
  unfold bind at 1. unfold emit at 1.
  unfold bind at 1. unfold load_HttpRequest at 1. simpl heap. rewrite H.
  unfold bind at 1. unfold store. simpl heap. rewrite H.
  rewrite (delete_HttpRequest_run self
             {| callback_ := callback_ this; req_ := NULL |});
    [|simpl; now apply load_stored with (o := OHttpRequest this)].
  cbv zeta. simpl. rewrite list_insert_insert_eq.
  now rewrite <- app_assoc.
Qed.

(** The trampoline only returns for a wrapper that is alive and refers to
    the very request the engine completes. *)
Lemma HttpRequest_Done_inv (o : eval_order) (req userdata : ptr)
  (w w' : world) :
  HttpRequest_Done o req userdata w = Ok tt w' ->
  exists this,
    load userdata (heap w) = Some (OHttpRequest this) /\
    req_ this = req /\ req <> NULL.
Proof.
  unfold HttpRequest_Done, CHECK_NOTNULL.
  destruct (userdata =? NULL); [intros H; discriminate H|].
  unfold bind at 1. unfold ret at 1. unfold bind at 1.
  destruct (Z.eqb_spec req NULL) as [E|E];
    destruct (load userdata (heap w)) as [[|h|this|e]|] eqn:Hload;
    destruct o; unfold eval_args, bind, load_HttpRequest, fatal, ret;
    rewrite ?Hload; try (intros H; discriminate H).
  all: unfold CHECK_EQ; simpl;
    destruct (Z.eqb_spec (req_ this) req) as [Heq|Hne];
    [intros _; exists this; auto | intros H; discriminate H].
Qed.

Lemma HttpRequest_ctor_run (callback : closure) (w : world) :
  let this := addr_of_index (length (heap w)) in
  let creation := evhttp_request_new Fn_HttpRequest_Done this in
  let req := engine w (trace w ++ [ENew this]) creation in
  HttpRequest_ctor callback w
  = if req =? NULL
    then Fatal request_diagnostic
           {| engine := engine w;
              trace := trace w ++ [ENew this; ECall creation req];
              heap := heap w ++ [Some ORaw] |}
    else Ok this
           {| engine := engine w;
              trace := trace w ++ [ENew this; ECall creation req];
              heap := heap w
                      ++ [Some (OHttpRequest {| callback_ := callback;
                                                req_ := req |})] |}.
Proof.
  cbv zeta. unfold HttpRequest_ctor, bind, operator_new, libevent,
    CHECK_NOTNULL. simpl.
  destruct (engine w (trace w ++ [ENew (addr_of_index (length (heap w)))])
              (evhttp_request_new Fn_HttpRequest_Done
                 (addr_of_index (length (heap w)))) =? NULL);
    unfold fatal, ret, store, record; simpl.
  - now rewrite <- app_assoc.
  - now rewrite load_fresh, index_addr, insert_fresh, <- app_assoc.
Qed.

(** How one operation changes the object store. *)
Lemma run_op_heap (op : wrapper_op) (w w' : world) :
  run_op op w = Ok tt w' ->
  match op with
  | WNew _ =>
      exists this, heap w' = heap w ++ [Some (OHttpRequest this)]
  | WDone _ req userdata =>
      (exists this, load userdata (heap w) = Some (OHttpRequest this) /\
                    req_ this = req /\ req <> NULL) /\
      heap w' = <[index_of_addr userdata := None]> (heap w)
  | WDelete p =>
      (p = NULL /\ heap w' = heap w) \/
      (0 < p /\ heap w' = <[index_of_addr p := None]> (heap w))
  end.
Proof.
  destruct op as [callback|o req userdata|p]; simpl.
  - unfold bind. rewrite HttpRequest_ctor_run. cbv zeta.
    destruct (_ =? NULL); [intros H; discriminate H|].
    unfold ret. intros [= <-]. simpl. eauto.
  - intros Hrun.
    destruct (HttpRequest_Done_inv _ _ _ _ _ Hrun) as (this & Hl & Hr & Hn).
    split; [eauto|]. subst req.
    rewrite (HttpRequest_Done_run o userdata this w Hl) in Hrun
      by congruence.
    now injection Hrun as <-.
  - unfold delete_HttpRequest.
    destruct (Z.eqb_spec p NULL) as [E|E].
    + unfold ret. intros [= <-]. now left.
    + intros Hrun. right.
      destruct (load p (heap w)) as [[|h|this|e]|] eqn:Hl;
        try (unfold bind, load_HttpRequest in Hrun; rewrite Hl in Hrun;
             discriminate Hrun).
      destruct (load_Some_inv _ _ _ Hl) as (Hpos & _ & _).
      split; [exact Hpos|].
      pose proof (delete_HttpRequest_run p this w Hl) as Hd. cbv zeta in Hd.
      unfold delete_HttpRequest in Hd.
      destruct (Z.eqb_spec p NULL) as [E'|_]; [contradiction|].
      rewrite Hd in Hrun. now injection Hrun as <-.
Qed.

Lemma pending_cleared (p self : ptr) (w : world) (h : list (option object)) :
  0 < p ->
  (exists this, load self (<[index_of_addr p := None]> (heap w))
                = Some (OHttpRequest this) /\ req_ this <> NULL) ->
  pending self w.
Proof.
  intros Hp (this & Hl & Hr). exists this. split; [|exact Hr].
  destruct (Z.eq_dec p self) as [->|Hne].
  - rewrite load_cleared in Hl. discriminate Hl.
  - now rewrite load_insert_other in Hl.
Qed.

(** A wrapper that can no longer complete stays that way. *)
Lemma run_op_no_return (op : wrapper_op) (self : ptr) (w w' : world) :
  run_op op w = Ok tt w' ->
  ~ may_complete self w -> ~ may_complete self w'.
Proof.
  intros Hrun Hno. apply run_op_heap in Hrun.
  assert (~ pending self w) as Hnp by (intros H; apply Hno; now left).
  assert (allocated self w) as Hal.
  { unfold allocated.
    destruct (Nat.lt_ge_cases (index_of_addr self) (length (heap w)))
      as [Hlt|Hge]; [assumption|].
    exfalso. apply Hno. right. unfold allocated. lia. }
  unfold allocated in Hal.
  intros [Hp|Hu].
  - apply Hnp. destruct op as [callback|o req userdata|p].
    + destruct Hrun as (this & Hh). destruct Hp as (t & Hl & Hr).
      rewrite Hh, load_app_old in Hl by exact Hal. exists t. auto.
    + destruct Hrun as ((this & Hl & _) & Hh).
      destruct (load_Some_inv _ _ _ Hl) as (Hpos & _ & _).
      apply (pending_cleared userdata self w (heap w) Hpos).
      unfold pending in Hp. now rewrite Hh in Hp.
    + destruct Hrun as [[_ Hh]|[Hpos Hh]].
      * unfold pending in *. now rewrite Hh in Hp.
      * apply (pending_cleared p self w (heap w) Hpos).
        unfold pending in Hp. now rewrite Hh in Hp.
  - apply Hu. unfold allocated. destruct op as [callback|o req userdata|p].
    + destruct Hrun as (this & ->). rewrite length_app. simpl. lia.
    + destruct Hrun as (_ & ->). now rewrite length_insert.
    + destruct Hrun as [[_ ->]|[_ ->]]; [|rewrite length_insert]; exact Hal.
Qed.

(** A completion needs a pending wrapper and leaves none. *)
Lemma run_op_completion (o : eval_order) (req self : ptr) (w w' : world) :
  run_op (WDone o req self) w = Ok tt w' ->
  pending self w /\ ~ may_complete self w'.
Proof.
  intros Hrun. apply run_op_heap in Hrun.
  destruct Hrun as ((this & Hl & Hr & Hn) & Hh).
  destruct (load_Some_inv _ _ _ Hl) as (Hpos & Hlt & _).
  split.
  - exists this. split; [exact Hl | congruence].
  - intros [(t & Ht & _)|Hu].
    + rewrite Hh, load_cleared in Ht. discriminate Ht.
    + apply Hu. unfold allocated. now rewrite Hh, length_insert.
Qed.

Lemma run_ops_cons (op : wrapper_op) (rest : list wrapper_op) (w w' : world) :
  run_ops (op :: rest) w = Ok tt w' ->
  exists w1, run_op op w = Ok tt w1 /\ run_ops rest w1 = Ok tt w'.
Proof.
  simpl. unfold bind.
  destruct (run_op op w) as [[] w1|d w1|]; try (intros H; discriminate H).
  eauto.
Qed.

Lemma run_ops_no_return (ops : list wrapper_op) (self : ptr) (w w' : world) :
  run_ops ops w = Ok tt w' ->
  ~ may_complete self w ->
  ~ may_complete self w' /\ completions self ops = 0%nat.
Proof.
  revert w. induction ops as [|op rest IH]; intros w Hrun Hno.
  - injection Hrun as <-. auto.
  - apply run_ops_cons in Hrun as (w1 & Hop & Hrest).
    pose proof (run_op_no_return op self w w1 Hop Hno) as Hno1.
    destruct (IH w1 Hrest Hno1) as [Hend Hzero]. split; [exact Hend|].
    unfold completions in *. simpl.
    destruct (completes self op) eqn:Hc; [|exact Hzero].
    exfalso. destruct op as [|o req userdata|]; try discriminate Hc.
    simpl in Hc. apply Z.eqb_eq in Hc. subst userdata.
    apply run_op_completion in Hop as [Hp _]. apply Hno. now left.
Qed.

Lemma run_ops_completes_once (ops : list wrapper_op) (self : ptr)
  (w w' : world) :
  run_ops ops w = Ok tt w' -> (completions self ops <= 1)%nat.
Proof.
  revert w. induction ops as [|op rest IH]; intros w Hrun;
    [unfold completions; simpl; lia|].
  apply run_ops_cons in Hrun as (w1 & Hop & Hrest).
  unfold completions in *. simpl.
  destruct (completes self op) eqn:Hc; [|eauto].
  destruct op as [|o req userdata|]; try discriminate Hc.
  simpl in Hc. apply Z.eqb_eq in Hc. subst userdata.
  apply run_op_completion in Hop as [_ Hno].
  destruct (run_ops_no_return rest self w1 w' Hrest Hno) as [_ Hzero].
  unfold completions in Hzero. simpl. lia.
Qed.

(** C2: deleting a wrapper that is still pending (its [req_] is not null)
    frees the engine's request with [evhttp_request_free], once, and then
    releases the wrapper.  When the completion trampoline fires for a
    pending wrapper it calls the user callback, sets [req_] to null and
    deletes the wrapper, whose destructor then frees nothing: no
    [evhttp_request_free] is called on that path, nor by the destructor of
    any wrapper whose [req_] is null.  Over any sequence of constructions,
    completions and deletions that runs through, the trampoline fires for
    one wrapper at most once, and a wrapper that has left the pending
    state is never pending again. *)
Theorem HttpRequest_frees_only_while_pending (self : ptr) (this : HttpRequest)
  (w : world) :
  (load self (heap w) = Some (OHttpRequest this) -> req_ this <> NULL ->
   let free := ECall (evhttp_request_free (req_ this))
                 (engine w (trace w) (evhttp_request_free (req_ this))) in
   delete_HttpRequest self w
   = Ok tt {| engine := engine w;
              trace := trace w ++ [free; EDelete self];
              heap := <[index_of_addr self := None]> (heap w) |} /\
   frees (req_ this) [free; EDelete self] = 1%nat) /\
  (load self (heap w) = Some (OHttpRequest this) -> req_ this <> NULL ->
   forall o : eval_order,
     HttpRequest_Done o (req_ this) self w
     = Ok tt {| engine := engine w;
                trace := trace w ++ [EUser (callback_ this) [self];
                                     EDelete self];
                heap := <[index_of_addr self := None]> (heap w) |} /\
     (forall req, frees req [EUser (callback_ this) [self]; EDelete self]
                  = 0%nat) /\
     load self (<[index_of_addr self := None]> (heap w)) = None) /\
  (load self (heap w) = Some (OHttpRequest this) -> req_ this = NULL ->
   delete_HttpRequest self w
   = Ok tt {| engine := engine w;
              trace := trace w ++ [EDelete self];
              heap := <[index_of_addr self := None]> (heap w) |}) /\
  (forall (ops : list wrapper_op) (w' : world),
     run_ops ops w = Ok tt w' ->
     (completions self ops <= 1)%nat /\
     (allocated self w -> ~ pending self w -> ~ pending self w')).
Proof.
  split; [|split; [|split]].
  - intros Hl Hreq. cbv zeta.
    pose proof (delete_HttpRequest_run self this w Hl) as Hd. cbv zeta in Hd.
    apply Z.eqb_neq in Hreq. rewrite Hreq in Hd. split; [exact Hd|].
    unfold frees. simpl. now rewrite Z.eqb_refl.
  - intros Hl Hreq o. split; [now apply HttpRequest_Done_run|].
    split; [reflexivity | apply load_cleared].
  - intros Hl Hreq.
    pose proof (delete_HttpRequest_run self this w Hl) as Hd. cbv zeta in Hd.
    apply Z.eqb_eq in Hreq. now rewrite Hreq in Hd.
  - intros ops w' Hrun. split; [now apply run_ops_completes_once with w w'|].
    intros Hal Hnp Hp.
    assert (~ may_complete self w) as Hno by (intros [H|H]; auto).
    destruct (run_ops_no_return ops self w w' Hrun Hno) as [Hend _].
    apply Hend. now left.
Qed.

Lemma HttpRequest_frees_only_while_pending_witness :
  delete_HttpRequest 1 one_request_world
  = Ok tt {| engine := obliging_engine;
             trace := [] ++ [ECall (evhttp_request_free 4097) 0; EDelete 1];
             heap := [None] |} /\
  HttpRequest_Done RightToLeft 4097 1 one_request_world
  = Ok tt {| engine := obliging_engine;
             trace := [] ++ [EUser 7%nat [1]; EDelete 1];
             heap := [None] |}.
Proof.
  destruct (HttpRequest_frees_only_while_pending 1
              {| callback_ := 7%nat; req_ := 4097 |} one_request_world)
    as (Hdel & Hdone & _).
  split.
  - apply Hdel; [reflexivity | discriminate].
  - apply Hdone; [reflexivity | discriminate].
Defined.

(** A second completion of the same wrapper does not run through: the
    wrapper is gone. *)
Example HttpRequest_Done_twice :
  run_ops [WDone LeftToRight 4097 1; WDone LeftToRight 4097 1]
    one_request_world = Undefined.
Proof. reflexivity. Qed.

(** Construction, then completion: the request is never freed by the
    wrapper. *)
Example HttpRequest_new_then_done :
  run_ops [WNew 7%nat; WDone LeftToRight 4097 1] (fresh_world obliging_engine)
  = Ok tt {| engine := obliging_engine;
             trace := [ENew 1;
                       ECall (evhttp_request_new Fn_HttpRequest_Done 1) 4097;
                       EUser 7%nat [1];
                       EDelete 1];
             heap := [None] |}.
Proof. reflexivity. Qed.

(** * More of the layer *)

(** ** Handles are never null *)

Lemma CHECK_NOTNULL_run (what : string) (p : ptr) (w : world) :
  CHECK_NOTNULL what p w
  = if p =? NULL
    then Fatal ("Check failed: '" ++ what ++ "' Must be non NULL")%string w
    else Ok p w.
Proof. unfold CHECK_NOTNULL. now destruct (p =? NULL). Qed.

Lemma Base_GetDns_run (this : Base) (w : world) :
  match Base_GetDns this w with
  | Ok (d, this') w' =>
      d <> NULL /\ this' = {| base_ := base_ this; dns_ := d |} /\
      (dns_ this <> NULL -> d = dns_ this) /\
      w' = {| engine := engine w;
              trace := trace w ++ GetDns_events this d;
              heap := heap w |}
  | Fatal d w' => d = dns_diagnostic /\ dns_ this = NULL
  | Undefined => False
  end.
Proof.
  destruct (Z.eq_dec (dns_ this) NULL) as [Hnull|Hset].
  - rewrite (Base_GetDns_first this w Hnull). cbv zeta.
    destruct (Z.eqb_spec (engine w (trace w ++ [ELock])
                            (evdns_base_new (base_ this) 1)) NULL) as [E|E].
    + auto.
    + split; [exact E|]. split; [reflexivity|]. split; [contradiction|].
      unfold GetDns_events. apply Z.eqb_eq in Hnull. now rewrite Hnull.
  - rewrite (Base_GetDns_again this w Hset).
    split; [exact Hset|]. split; [now destruct this|]. split; [reflexivity|].
    unfold GetDns_events. apply Z.eqb_neq in Hset. now rewrite Hset.
Qed.

Lemma Base_HttpConnectionNew_run (this : Base) (host : string) (port : Z)
  (w : world) :
  match Base_HttpConnectionNew this host port w with
  | Ok (c, this') w' =>
      c <> NULL /\ dns_ this' <> NULL /\
      this' = {| base_ := base_ this; dns_ := dns_ this' |} /\
      (dns_ this <> NULL -> this' = this) /\
      w' = {| engine := engine w;
              trace := trace w
                       ++ GetDns_events this (dns_ this')
                       ++ [ECall (evhttp_connection_base_new (base_ this)
                                    (dns_ this') host port) c];
              heap := heap w |}
  | Fatal _ _ => True
  | Undefined => False
  end.
Proof.
  unfold Base_HttpConnectionNew. unfold bind at 1.
  pose proof (Base_GetDns_run this w) as Hdns.
  destruct (Base_GetDns this w) as [[d this'] w1|msg w1|];
    [|exact I|exact Hdns].
  destruct Hdns as (Hd & -> & Hsame & ->).
  unfold bind, libevent. simpl. rewrite CHECK_NOTNULL_run.
  match goal with |- context [?c =? NULL] =>
    destruct (Z.eqb_spec c NULL) as [E|E] end; [exact I|].
  unfold ret. simpl. split; [exact E|]. split; [exact Hd|].
  split; [reflexivity|]. split.
  - intros Hset. rewrite (Hsame Hset). now destruct this.
  - unfold record. simpl. now rewrite <- app_assoc.
Qed.

Lemma Event_ctor_run (base : Base) (sock events : Z) (cb : closure)
  (w : world) :
  let this := addr_of_index (length (heap w)) in
  let creation := event_new (base_ base) sock events Fn_Event_Dispatch this in
  let ev := engine w (trace w ++ [ENew this]) creation in
  Event_ctor base sock events cb w
  = if ev =? NULL
    then Fatal "Check failed: 'event_new(base_, sock, events, &Event::Dispatch, event)' Must be non NULL"
           {| engine := engine w;
              trace := trace w ++ [ENew this; ECall creation ev];
              heap := heap w ++ [Some ORaw] |}
    else Ok this
           {| engine := engine w;
              trace := trace w ++ [ENew this; ECall creation ev];
              heap := heap w ++ [Some (OEvent {| cb_ := cb; ev_ := ev |})] |}.
Proof.
  cbv zeta. unfold Event_ctor, Base_EventNew, bind, operator_new, libevent,
    CHECK_NOTNULL. simpl.
  destruct (engine w (trace w ++ [ENew (addr_of_index (length (heap w)))])
              (event_new (base_ base) sock events Fn_Event_Dispatch
                 (addr_of_index (length (heap w)))) =? NULL);
    unfold fatal, ret, store, record; simpl.
  - now rewrite <- app_assoc.
  - now rewrite load_fresh, index_addr, insert_fresh, <- app_assoc.
Qed.

(** X1: no function of the layer that hands out a libevent handle ever
    hands out a null one.  [EventNew], [HttpNew], [GetDns],
    [HttpConnectionNew] and the constructors of [HttpServer], [Event] and
    [HttpRequest] either return a handle that is not null (the objects
    constructed hold one) or abort the process; none of them is undefined,
    and the first two abort exactly when libevent answers null. *)
Theorem handles_never_null (this : Base) (w : world) :
  (forall sock events event,
     let r := engine w (trace w)
                (event_new (base_ this) sock events Fn_Event_Dispatch event) in
     match Base_EventNew this sock events event w with
     | Ok e _ => e <> NULL /\ e = r
     | Fatal _ _ => r = NULL
     | Undefined => False
     end) /\
  (let r := engine w (trace w) (evhttp_new (base_ this)) in
   match Base_HttpNew this w with
   | Ok h _ => h <> NULL /\ h = r
   | Fatal _ _ => r = NULL
   | Undefined => False
   end) /\
  match Base_GetDns this w with
  | Ok (d, this') _ => d <> NULL /\ dns_ this' = d
  | Fatal _ _ => dns_ this = NULL
  | Undefined => False
  end /\
  (forall host port,
     match Base_HttpConnectionNew this host port w with
     | Ok (c, this') _ => c <> NULL /\ dns_ this' <> NULL
     | Fatal _ _ => True
     | Undefined => False
     end) /\
  match HttpServer_ctor this w with
  | Ok server _ => http_ server <> NULL
  | Fatal _ _ => True
  | Undefined => False
  end /\
  (forall sock events cb,
     match Event_ctor this sock events cb w with
     | Ok p w' => exists e, load p (heap w') = Some (OEvent e) /\
                            ev_ e <> NULL /\ cb_ e = cb
     | Fatal _ _ => True
     | Undefined => False
     end) /\
  (forall callback,
     match HttpRequest_ctor callback w with
     | Ok p w' => exists r, load p (heap w') = Some (OHttpRequest r) /\
                            req_ r <> NULL /\ callback_ r = callback
     | Fatal _ _ => True
     | Undefined => False
     end).
Proof.
  repeat split.
  - intros sock events event. cbv zeta.
    unfold Base_EventNew, bind, libevent. cbv beta. rewrite CHECK_NOTNULL_run.
    destruct (Z.eqb_spec (engine w (trace w)
                (event_new (base_ this) sock events Fn_Event_Dispatch event))
                NULL); auto.
  - cbv zeta.
    unfold Base_HttpNew, bind, libevent. cbv beta. rewrite CHECK_NOTNULL_run.
    destruct (Z.eqb_spec (engine w (trace w) (evhttp_new (base_ this))) NULL);
      auto.
  - pose proof (Base_GetDns_run this w) as H.
    destruct (Base_GetDns this w) as [[d this'] w'|m w'|]; [|tauto|exact H].
    destruct H as (Hd & -> & _). auto.
  - intros host port.
    pose proof (Base_HttpConnectionNew_run this host port w) as H.
    destruct (Base_HttpConnectionNew this host port w)
      as [[c this'] w'|m w'|]; [tauto|exact I|exact H].
  - unfold HttpServer_ctor, Base_HttpNew, bind, libevent. cbv beta.
    rewrite CHECK_NOTNULL_run.
    destruct (Z.eqb_spec (engine w (trace w) (evhttp_new (base_ this))) NULL);
      [exact I | exact n].
  - intros sock events cb. rewrite Event_ctor_run. cbv zeta.
    match goal with |- context [?c =? NULL] =>
      destruct (Z.eqb_spec c NULL) as [E|E] end; [exact I|].
    eexists. simpl. rewrite load_fresh. split; [reflexivity|]. auto.
  - intros callback. rewrite HttpRequest_ctor_run. cbv zeta.
    match goal with |- context [?c =? NULL] =>
      destruct (Z.eqb_spec c NULL) as [E|E] end; [exact I|].
    eexists. simpl. rewrite load_fresh. split; [reflexivity|]. auto.
Qed.

(** ** An event and its callback *)

(** X2: the address [Event::Event] registers with [event_new] as callback
    argument is the address at which [Event::Dispatch] finds the callback
    given to the constructor: when libevent fires the trampoline with that
    argument, the callback is called with the descriptor and the flags
    libevent passes, and nothing else happens (no call into libevent, no
    change of any object, so no re-arming). *)
Theorem Event_ctor_then_Dispatch (base : Base) (sock events : Z)
  (cb : closure) (w w' : world) (this : ptr) :
  Event_ctor base sock events cb w = Ok this w' ->
  (exists ev,
     trace w'
     = trace w ++ [ENew this;
                   ECall (event_new (base_ base) sock events
                            Fn_Event_Dispatch this) ev]) /\
  forall fired_sock fired_events,
    Event_Dispatch fired_sock fired_events this w'
    = Ok tt {| engine := engine w';
               trace := trace w' ++ [EUser cb [fired_sock; fired_events]];
               heap := heap w' |}.
Proof.
  rewrite Event_ctor_run. cbv zeta.
  match goal with |- context [?c =? NULL] =>
    destruct (Z.eqb_spec c NULL) as [E|E] end; [intros H; discriminate H|].
  intros [= <- <-]. simpl. split; [eauto|].
  intros fired_sock fired_events.
  unfold Event_Dispatch, bind, load_Event. simpl. now rewrite load_fresh.
Qed.

Lemma Event_ctor_then_Dispatch_witness :
  Event_Dispatch 9 2 1
    {| engine := obliging_engine;
       trace := [ENew 1; ECall (event_new 4096 9 2 Fn_Event_Dispatch 1) 4097];
       heap := [Some (OEvent {| cb_ := 5%nat; ev_ := 4097 |})] |}
  = Ok tt
      {| engine := obliging_engine;
         trace := [ENew 1; ECall (event_new 4096 9 2 Fn_Event_Dispatch 1) 4097]
                  ++ [EUser 5%nat [9; 2]];
         heap := [Some (OEvent {| cb_ := 5%nat; ev_ := 4097 |})] |}.
Proof.
  apply (proj2 (Event_ctor_then_Dispatch {| base_ := 4096; dns_ := NULL |}
                  9 2 5%nat (fresh_world obliging_engine) _ 1 eq_refl)).
Defined.

(** ** Handlers of a server *)

Lemma addrs_from_lookup (n k i : nat) :
  (i < k)%nat -> addrs_from n k !! i = Some (addr_of_index (n + i)).
Proof.
  revert n i. induction k as [|k IH]; intros n [|i] Hlt; try lia; simpl.
  - now rewrite Nat.add_0_r.
  - rewrite IH by lia. do 2 f_equal. lia.
Qed.

Lemma addrs_from_length (n k : nat) : length (addrs_from n k) = k.
Proof. revert n. induction k as [|k IH]; intros n; simpl; auto. Qed.

Lemma addrs_from_In (n k : nat) (p : ptr) :
  In p (addrs_from n k) ->
  exists i, (i < k)%nat /\ p = addr_of_index (n + i).
Proof.
  revert n. induction k as [|k IH]; intros n; simpl; [intros []|].
  intros [<-|Hin].
  - exists 0%nat. split; [lia | now rewrite Nat.add_0_r].
  - destruct (IH _ Hin) as (i & Hi & ->). exists (S i).
    split; [lia | f_equal; lia].
Qed.

Lemma addr_of_index_inj (i j : nat) :
  addr_of_index i = addr_of_index j -> i = j.
Proof. unfold addr_of_index. lia. Qed.

Lemma addrs_from_NoDup (n k : nat) : List.NoDup (addrs_from n k).
Proof.
  revert n. induction k as [|k IH]; intros n; simpl; constructor; auto.
  intros Hin. apply addrs_from_In in Hin as (i & _ & Heq).
  apply addr_of_index_inj in Heq. lia.
Qed.

Lemma allocations_app (es1 es2 : list event) :
  allocations (es1 ++ es2) = allocations es1 ++ allocations es2.
Proof. apply flat_map_app. Qed.

Lemma deleted_app (es1 es2 : list event) :
  deleted (es1 ++ es2) = deleted es1 ++ deleted es2.
Proof. apply flat_map_app. Qed.

Lemma deleted_map (l : list ptr) : deleted (map EDelete l) = l.
Proof. induction l as [|p l IH]; simpl; [reflexivity | now rewrite IH]. Qed.

Lemma allocations_map_delete (l : list ptr) : allocations (map EDelete l) = [].
Proof. induction l as [|p l IH]; simpl; auto. Qed.

Lemma load_cells (h : list (option object)) (regs : list (string * closure))
  (i : nat) (reg : string * closure) :
  regs !! i = Some reg ->
  load (addr_of_index (length h + i)) (h ++ map handler_cell regs)
  = Some (OHandler {| path := fst reg; cb := snd reg |}).
Proof.
  intros Hreg. unfold load. rewrite addr_positive, index_addr.
  rewrite lookup_app_r by lia.
  replace (length h + i - length h)%nat with i by lia.
  now rewrite list_lookup_fmap, Hreg.
Qed.

(** What a list of registrations leaves behind, whatever libevent answers:
    one record per registration at consecutive new addresses, appended in
    order, every registration attempted with its record as argument. *)
Lemma AddHandlers_run (regs : list (string * closure)) (this : HttpServer)
  (w : world) :
  exists results es,
    AddHandlers regs this w
    = Ok (results,
          {| http_ := http_ this;
             handlers_ := handlers_ this
                          ++ addrs_from (length (heap w)) (length regs) |})
         {| engine := engine w;
            trace := trace w ++ es;
            heap := heap w ++ map handler_cell regs |} /\
    length results = length regs /\
    allocations es = addrs_from (length (heap w)) (length regs) /\
    deleted es = [] /\
    forall i reg, regs !! i = Some reg ->
      exists r,
        In (ECall (evhttp_set_cb (http_ this) (fst reg) Fn_HandleRequest
                     (addr_of_index (length (heap w) + i))) r) es /\
        results !! i = Some (r =? 0).
Proof.
  revert this w. induction regs as [|reg rest IH]; intros this w.
  - exists [], []. simpl. unfold ret. rewrite !app_nil_r.
    repeat split; auto; [now destruct this, w | intros i reg H; discriminate H].
  - simpl. unfold bind at 1. rewrite HttpServer_AddHandler_run. cbv zeta.
    set (a := addr_of_index (length (heap w))).
    set (reg_call := evhttp_set_cb (http_ this) (fst reg) Fn_HandleRequest a).
    set (r := engine w (trace w ++ [ENew a]) reg_call).
    simpl snd. simpl fst. unfold bind.
    match goal with |- context [AddHandlers rest ?t ?v] =>
      destruct (IH t v) as (results & es & Hrun & Hlen & Hal & Hdel & Hreg) end.
    exists ((r =? 0) :: results), ([ENew a; ECall reg_call r] ++ es).
    rewrite Hrun. unfold ret. simpl in *.
    rewrite length_app in *. simpl in *.
    replace (length (heap w) + 1)%nat with (S (length (heap w))) in * by lia.
    split; [|split; [|split; [|split]]].
    + f_equal.
      * f_equal. f_equal. now rewrite <- app_assoc.
      * f_equal; [now rewrite <- app_assoc | now rewrite <- app_assoc].
    + now rewrite Hlen.
    + now rewrite Hal.
    + exact Hdel.
    + intros [|i] reg' Hi; simpl in Hi.
      * injection Hi as <-. exists r. rewrite Nat.add_0_r. auto.
      * destruct (Hreg i reg' Hi) as (r' & Hin & Hres).
        exists r'. split; [|exact Hres].
        right. right.
        replace (length (heap w) + S i)%nat with (S (length (heap w)) + i)%nat
          by lia.
        exact Hin.
Qed.

(** X3: after any list of registrations, each of them is dispatched to its
    own callback.  The record whose address [AddHandler] gave to
    [evhttp_set_cb] for the i-th registration is the i-th new element of
    [handlers_], and [HandleRequest] fired with that address calls the
    i-th callback with the request; this holds whether the registrations
    succeeded or not, and later registrations do not disturb earlier
    ones. *)
Theorem AddHandlers_then_HandleRequest (regs : list (string * closure))
  (this this' : HttpServer) (results : list bool) (w w' : world) :
  AddHandlers regs this w = Ok (results, this') w' ->
  forall (i : nat) (p : string) (c : closure),
    regs !! i = Some (p, c) ->
    exists h r,
      handlers_ this' !! (length (handlers_ this) + i)%nat = Some h /\
      In (ECall (evhttp_set_cb (http_ this) p Fn_HandleRequest h) r)
         (drop (length (trace w)) (trace w')) /\
      results !! i = Some (r =? 0) /\
      forall req,
        HttpServer_HandleRequest req h w'
        = Ok tt {| engine := engine w';
                   trace := trace w' ++ [EUser c [req]];
                   heap := heap w' |}.
Proof.
  destruct (AddHandlers_run regs this w)
    as (results0 & es & Hrun & _ & _ & _ & Hreg).
  rewrite Hrun. intros [= <- <- <-] i p c Hi.
  destruct (Hreg i (p, c) Hi) as (r & Hin & Hres).
  assert (i < length regs)%nat as Hlt by (now apply lookup_lt_Some in Hi).
  exists (addr_of_index (length (heap w) + i)), r. simpl.
  split; [|split; [|split]].
  - rewrite lookup_app_r by lia.
    replace (length (handlers_ this) + i - length (handlers_ this))%nat
      with i by lia.
    now apply addrs_from_lookup.
  - now rewrite drop_app_length.
  - exact Hres.
  - intros req. unfold HttpServer_HandleRequest, bind, load_Handler. simpl.
    now rewrite (load_cells _ _ _ _ Hi).
Qed.

Lemma AddHandlers_then_HandleRequest_witness :
  exists h r,
    [1; 2] !! 1%nat = Some h /\
    In (ECall (evhttp_set_cb 4096 "/ct/v1/add-chain" Fn_HandleRequest h) r)
       (drop 0 [ENew 1;
                ECall (evhttp_set_cb 4096 "/ct/v1/get-sth" Fn_HandleRequest 1)
                  (-1);
                ENew 2;
                ECall (evhttp_set_cb 4096 "/ct/v1/add-chain" Fn_HandleRequest 2)
                  (-1)]) /\
    [false; false] !! 1%nat = Some (r =? 0) /\
    forall req,
      HttpServer_HandleRequest req h
        {| engine := failing_engine;
           trace := [ENew 1;
                     ECall (evhttp_set_cb 4096 "/ct/v1/get-sth"
                              Fn_HandleRequest 1) (-1);
                     ENew 2;
                     ECall (evhttp_set_cb 4096 "/ct/v1/add-chain"
                              Fn_HandleRequest 2) (-1)];
           heap := heap two_handler_world |}
      = Ok tt
          {| engine := failing_engine;
             trace := [ENew 1;
                       ECall (evhttp_set_cb 4096 "/ct/v1/get-sth"
                                Fn_HandleRequest 1) (-1);
                       ENew 2;
                       ECall (evhttp_set_cb 4096 "/ct/v1/add-chain"
                                Fn_HandleRequest 2) (-1)]
                      ++ [EUser 1%nat [req]];
             heap := heap two_handler_world |}.
Proof.
  exact (AddHandlers_then_HandleRequest
           [("/ct/v1/get-sth", 0%nat); ("/ct/v1/add-chain", 1%nat)]
           {| http_ := 4096; handlers_ := [] |} _ _
           (fresh_world failing_engine) _ eq_refl
           1%nat "/ct/v1/add-chain" 1%nat eq_refl).
Defined.

Lemma addrs_from_In_intro (n k i : nat) :
  (i < k)%nat -> In (addr_of_index (n + i)) (addrs_from n k).
Proof.
  revert n i. induction k as [|k IH]; intros n [|i] Hlt; try lia; simpl.
  - left. now rewrite Nat.add_0_r.
  - right. replace (n + S i)%nat with (S n + i)%nat by lia. apply IH. lia.
Qed.

Lemma load_app_l (p : ptr) (h l : list (option object)) :
  (index_of_addr p < length h)%nat -> load p (h ++ l) = load p h.
Proof. intros Hlt. unfold load. now rewrite lookup_app_l. Qed.

Lemma addr_index (p : ptr) : 0 < p -> addr_of_index (index_of_addr p) = p.
Proof. unfold addr_of_index, index_of_addr. lia. Qed.

(** X4: a server's whole life leaks no record and deletes none twice.  For
    every list of registrations and every engine, construction, the
    registrations and destruction run through unless [evhttp_new] returns
    null; the records deleted are exactly the records allocated, in the
    order of allocation, each once, one per registration whether it
    succeeded or not; the endpoint is freed before the first deletion;
    afterwards the object store holds what it held before and nothing
    else. *)
Theorem server_lifetime_balanced (base : Base)
  (regs : list (string * closure)) (w : world) :
  match server_lifetime base regs w with
  | Ok _ w' =>
      exists http es_reg r,
        http <> NULL /\
        trace w'
        = trace w ++ [ECall (evhttp_new (base_ base)) http] ++ es_reg
                  ++ [ECall (evhttp_free http) r]
                  ++ map EDelete (allocations es_reg) /\
        deleted es_reg = [] /\
        List.NoDup (allocations es_reg) /\
        length (allocations es_reg) = length regs /\
        forall p, load p (heap w') = load p (heap w)
  | Fatal _ w' =>
      engine w (trace w) (evhttp_new (base_ base)) = NULL /\
      heap w' = heap w
  | Undefined => False
  end.
Proof.
  unfold server_lifetime. unfold bind at 1.
  unfold HttpServer_ctor, Base_HttpNew, bind at 1, bind at 1, libevent.
  cbv beta. rewrite CHECK_NOTNULL_run.
  set (http := engine w (trace w) (evhttp_new (base_ base))).
  destruct (Z.eqb_spec http NULL) as [E|E]; [auto|].
  unfold ret at 1. unfold bind at 1.
  match goal with |- context [AddHandlers regs ?t ?v] =>
    destruct (AddHandlers_run regs t v)
      as (results & es & Hrun & _ & Hal & Hdel & _) end.
  rewrite Hrun. simpl snd. simpl in Hal.
  set (addrs := addrs_from (length (heap w)) (length regs)) in *.
  match goal with |- context [HttpServer_dtor ?t ?v] =>
    destruct (HttpServer_dtor_run t v)
      as (w' & Hd & Htr & Hgone & Hkept) end.
  { split; simpl.
    - apply addrs_from_NoDup.
    - intros p Hp. apply addrs_from_In in Hp as (i & Hi & ->).
      destruct (lookup_lt_is_Some_2 regs i Hi) as [reg Hreg].
      rewrite (load_cells _ _ _ _ Hreg). eauto. }
  rewrite Hd. simpl in Htr, Hgone, Hkept.
  exists http, es. eexists. split; [exact E|].
  split; [rewrite Htr, Hal; unfold record; simpl; now rewrite <- !app_assoc|].
  split; [exact Hdel|]. rewrite Hal.
  split; [apply addrs_from_NoDup|]. split; [apply addrs_from_length|].
  intros p.
  destruct (in_dec Z.eq_dec p addrs) as [Hin|Hout].
  - rewrite (Hgone p Hin). symmetry.
    apply addrs_from_In in Hin as (i & _ & ->).
    apply load_beyond. rewrite index_addr. lia.
  - rewrite (Hkept p Hout).
    destruct (Nat.lt_ge_cases (index_of_addr p) (length (heap w)))
      as [Hlt|Hge]; [now apply load_app_l|].
    rewrite (load_beyond p (heap w) Hge).
    destruct (Z.leb_spec p 0) as [Hp|Hp];
      [unfold load; now destruct (Z.leb_spec p 0); [|lia]|].
    destruct (Nat.lt_ge_cases (index_of_addr p)
                (length (heap w) + length regs)) as [Hin|Hbeyond].
    + exfalso. apply Hout. rewrite <- (addr_index p Hp).
      replace (index_of_addr p)
        with (length (heap w) + (index_of_addr p - length (heap w)))%nat
        by lia.
      apply addrs_from_In_intro. lia.
    + apply load_beyond. rewrite length_app, length_map. lia.
Qed.

(** X5: a handler must not be dispatched after its server is destroyed.
    Once [~HttpServer] has run, [HandleRequest] fired with any record of
    that server reads a deleted object: the behaviour is undefined. *)
Theorem HandleRequest_after_dtor (this : HttpServer) (w w' : world) :
  owns_live_handlers w this ->
  HttpServer_dtor this w = Ok tt w' ->
  forall h req, In h (handlers_ this) ->
    HttpServer_HandleRequest req h w' = Undefined.
Proof.
  intros Hown Hrun h req Hin.
  destruct (HttpServer_dtor_run this w Hown) as (w1 & Hd & _ & Hgone & _).
  rewrite Hd in Hrun. injection Hrun as <-.
  unfold HttpServer_HandleRequest, bind, load_Handler.
  now rewrite (Hgone h Hin).
Qed.

Lemma HandleRequest_after_dtor_witness :
  HttpServer_HandleRequest 4100 2
    {| engine := obliging_engine;
       trace := [ECall (evhttp_free 4096) 0; EDelete 1; EDelete 2];
       heap := [None; None] |}
  = Undefined.
Proof.
  apply (HandleRequest_after_dtor two_handler_server two_handler_world _
           two_handler_server_owns eq_refl 2 4100).
  simpl. auto.
Defined.

(** ** Request wrappers *)

(** X6: what [HttpRequest::HttpRequest] registers completes what it
    constructs.  When the constructor returns, libevent holds
    [HttpRequest::Done] and the address of the new wrapper as callback and
    argument of the request it returned.  If libevent fires that callback
    with that request and that argument, the trampoline runs through: the
    callback given to the constructor is called with the wrapper, the
    wrapper is deleted and libevent's request is not freed on the way.  If
    instead the owner deletes the wrapper, the request is freed, once. *)
Theorem HttpRequest_ctor_then_Done (callback : closure) (w w' : world)
  (self : ptr) :
  HttpRequest_ctor callback w = Ok self w' ->
  exists req,
    req <> NULL /\
    trace w'
    = trace w ++ [ENew self;
                  ECall (evhttp_request_new Fn_HttpRequest_Done self) req] /\
    (forall o,
       HttpRequest_Done o req self w'
       = Ok tt {| engine := engine w';
                  trace := trace w' ++ [EUser callback [self]; EDelete self];
                  heap := <[index_of_addr self := None]> (heap w') |}) /\
    delete_HttpRequest self w'
    = Ok tt {| engine := engine w';
               trace := trace w'
                        ++ [ECall (evhttp_request_free req)
                              (engine w' (trace w') (evhttp_request_free req));
                            EDelete self];
               heap := <[index_of_addr self := None]> (heap w') |}.
Proof.
  rewrite HttpRequest_ctor_run. cbv zeta.
  set (this := addr_of_index (length (heap w))).
  set (req := engine w (trace w ++ [ENew this])
                (evhttp_request_new Fn_HttpRequest_Done this)).
  destruct (Z.eqb_spec req NULL) as [E|E]; [intros H; discriminate H|].
  intros [= <- <-]. exists req. split; [exact E|]. split; [reflexivity|].
  pose (w1 := {| engine := engine w;
                 trace := trace w
                          ++ [ENew this;
                              ECall (evhttp_request_new Fn_HttpRequest_Done
                                       this) req];
                 heap := heap w
                         ++ [Some (OHttpRequest {| callback_ := callback;
                                                   req_ := req |})] |}).
  assert (load this (heap w1)
          = Some (OHttpRequest {| callback_ := callback; req_ := req |}))
    as Hl by apply load_fresh.
  split.
  - intros o.
    exact (HttpRequest_Done_run o this
             {| callback_ := callback; req_ := req |} w1 Hl E).
  - pose proof (delete_HttpRequest_run this
                  {| callback_ := callback; req_ := req |} w1 Hl) as Hd.
    cbv zeta in Hd. simpl req_ in Hd.
    apply Z.eqb_neq in E. now rewrite E in Hd.
Qed.

Lemma HttpRequest_ctor_then_Done_witness :
  exists req,
    req <> NULL /\
    [ENew 1; ECall (evhttp_request_new Fn_HttpRequest_Done 1) 4097]
    = [] ++ [ENew 1; ECall (evhttp_request_new Fn_HttpRequest_Done 1) req] /\
    HttpRequest_Done LeftToRight req 1
      {| engine := obliging_engine;
         trace := [ENew 1;
                   ECall (evhttp_request_new Fn_HttpRequest_Done 1) 4097];
         heap := [Some (OHttpRequest {| callback_ := 7%nat;
                                        req_ := 4097 |})] |}
    = Ok tt
        {| engine := obliging_engine;
           trace := [ENew 1;
                     ECall (evhttp_request_new Fn_HttpRequest_Done 1) 4097]
                    ++ [EUser 7%nat [1]; EDelete 1];
           heap := [None] |}.
Proof.
  destruct (HttpRequest_ctor_then_Done 7%nat (fresh_world obliging_engine)
              _ 1 eq_refl) as (req & Hreq & Htr & Hdone & _).
  exists req. split; [exact Hreq|]. split; [exact Htr|].
  exact (Hdone LeftToRight).
Defined.

(** X7: the checks of the completion trampoline.  [HttpRequest::Done]
    aborts on a null [userdata], on a null request, and on a request that
    is not the one the wrapper refers to; in each case it aborts before
    the user callback is called, before [req_] is touched and before
    anything is deleted: the world is as it was. *)
Theorem HttpRequest_Done_checks (o : eval_order) (w : world) :
  (forall req, HttpRequest_Done o req NULL w = Fatal userdata_diagnostic w) /\
  (forall self this,
     load self (heap w) = Some (OHttpRequest this) ->
     HttpRequest_Done o NULL self w = Fatal req_diagnostic w) /\
  (forall req self this,
     load self (heap w) = Some (OHttpRequest this) ->
     req <> NULL -> req <> req_ this ->
     HttpRequest_Done o req self w = Fatal req_mismatch_diagnostic w).
Proof.
  split; [|split].
  - intros req. reflexivity.
  - intros self this Hl.
    destruct (load_Some_inv _ _ _ Hl) as (Hpos & _ & _).
    assert ((self =? NULL) = false) as Hself
      by (apply Z.eqb_neq; unfold NULL; lia).
    unfold HttpRequest_Done, CHECK_NOTNULL. rewrite Hself.
    unfold bind at 1. unfold ret at 1. unfold bind at 1.
    destruct o; unfold eval_args, bind, load_HttpRequest, fatal;
      simpl; now rewrite ?Hl.
  - intros req self this Hl Hreq Hne.
    destruct (load_Some_inv _ _ _ Hl) as (Hpos & _ & _).
    assert ((self =? NULL) = false) as Hself
      by (apply Z.eqb_neq; unfold NULL; lia).
    apply Z.eqb_neq in Hreq.
    unfold HttpRequest_Done, CHECK_NOTNULL. rewrite Hself, Hreq.
    unfold bind at 1. unfold ret at 1. unfold bind at 1.
    assert (eval_args o (this0 <- load_HttpRequest self ;; ret (req_ this0))
              (ret req) w = Ok (req_ this, req) w) as ->.
    { destruct o; unfold eval_args, bind, load_HttpRequest, ret;
        now rewrite Hl. }
    unfold bind, CHECK_EQ. simpl.
    destruct (Z.eqb_spec (req_ this) req) as [Heq|_]; [congruence|].
    reflexivity.
Qed.

Lemma HttpRequest_Done_checks_witness :
  HttpRequest_Done LeftToRight NULL 1 one_request_world
  = Fatal req_diagnostic one_request_world /\
  HttpRequest_Done RightToLeft 4098 1 one_request_world
  = Fatal req_mismatch_diagnostic one_request_world.
Proof.
  split.
  - apply (proj1 (proj2 (HttpRequest_Done_checks LeftToRight
                           one_request_world))
             1 {| callback_ := 7%nat; req_ := 4097 |} eq_refl).
  - apply (proj2 (proj2 (HttpRequest_Done_checks RightToLeft
                           one_request_world))
             4098 1 {| callback_ := 7%nat; req_ := 4097 |} eq_refl);
      discriminate.
Defined.

(** X8: a wrapper belongs to libevent once it has completed.  After
    [HttpRequest::Done] has run through for a wrapper, deleting that
    wrapper again is a second [delete] of the same object, and firing the
    trampoline for it again reads a deleted object: neither runs
    through. *)
Theorem HttpRequest_gone_after_Done (o : eval_order) (req self : ptr)
  (w w' : world) :
  HttpRequest_Done o req self w = Ok tt w' ->
  delete_HttpRequest self w' = Undefined /\
  forall o' req',
    match HttpRequest_Done o' req' self w' with
    | Ok _ _ => False
    | Fatal d _ => req' = NULL /\ o' = RightToLeft
    | Undefined => True
    end.
Proof.
  intros Hrun.
  destruct (HttpRequest_Done_inv _ _ _ _ _ Hrun) as (this & Hl & <- & Hn).
  rewrite (HttpRequest_Done_run o self this w Hl Hn) in Hrun.
  injection Hrun as <-.
  destruct (load_Some_inv _ _ _ Hl) as (Hpos & _ & _).
  assert ((self =? NULL) = false) as Hself
    by (apply Z.eqb_neq; unfold NULL; lia).
  split.
  - unfold delete_HttpRequest. rewrite Hself.
    unfold bind, load_HttpRequest. simpl. now rewrite load_cleared.
  - intros o' req'. unfold HttpRequest_Done, CHECK_NOTNULL. rewrite Hself.
    unfold bind at 1. unfold ret at 1. unfold bind at 1.
    destruct (Z.eqb_spec req' NULL) as [E|E];
      destruct o'; unfold eval_args, bind, load_HttpRequest, fatal, ret;
      simpl; rewrite ?load_cleared; auto.
Qed.

Lemma HttpRequest_gone_after_Done_witness :
  delete_HttpRequest 1
    {| engine := obliging_engine;
       trace := [] ++ [EUser 7%nat [1]; EDelete 1];
       heap := <[index_of_addr 1 := None]> (heap one_request_world) |}
  = Undefined.
Proof.
  apply (proj1 (HttpRequest_gone_after_Done LeftToRight 4097 1
                  one_request_world _ eq_refl)).
Defined.

(** ** Connections *)

Lemma GetPortFromUri_pure (uri : evhttp_uri) (w : world) :
  match GetPortFromUri uri w with
  | Ok p w' => w' = w /\ 0 <= p <= 65535
  | Fatal d w' => w' = w /\ d = no_scheme_diagnostic
  | Undefined => False
  end.
Proof.
  assert (forall x, 0 <= x mod 65536 <= 65535) as Hmod
    by (intros x; pose proof (Z.mod_pos_bound x 65536); lia).
  unfold GetPortFromUri, to_unsigned_short.
  destruct ((evhttp_uri_get_port uri <? 1) || (evhttp_uri_get_port uri >? 65535)).
  - destruct (evhttp_uri_get_scheme uri) as [s|]; unfold bind, ret, fatal;
      [|auto].
    destruct (strcmp "http" (chars s) =? 0); split; auto.
  - unfold ret. auto.
Qed.

(** A construction that returns built the host string, resolved the port
    and got the connection from [HttpConnectionNew]. *)
Lemma HttpConnection_ctor_inv (o : eval_order) (base base' : Base)
  (uri : evhttp_uri) (conn : HttpConnection) (w w' : world) :
  HttpConnection_ctor o base uri w = Ok (conn, base') w' ->
  exists h p,
    evhttp_uri_get_host uri = Some h /\
    GetPortFromUri uri w = Ok p w /\
    Base_HttpConnectionNew base (chars h) p w = Ok (conn_ conn, base') w'.
Proof.
  unfold HttpConnection_ctor. unfold bind at 1.
  pose proof (GetPortFromUri_pure uri w) as Hport.
  destruct (evhttp_uri_get_host uri) as [h|] eqn:Hhost;
    destruct (GetPortFromUri uri w) as [p w0|d w0|] eqn:Hp;
    destruct o; unfold eval_args, string_of_c_str, bind, ret, undefined;
    rewrite ?Hp; try (intros H; discriminate H); try contradiction.
  all: destruct Hport as [-> _]; rewrite ?Hp; cbn [fst snd];
    destruct (Base_HttpConnectionNew base (chars h) p w)
      as [[c b] w1|d w1|] eqn:Hnew;
    try (intros H; discriminate H);
    intros [= <- <- <-]; exists h, p; auto.
Qed.

(** X9: where a connection goes.  For a URI with a host, construction does
    not depend on the order in which the compiler evaluates the two
    arguments; and when it returns, the connection was requested from
    libevent for the loop of the shared [Base], its resolver handle, the
    host of the URI and the port [GetPortFromUri] resolves, the handle
    stored is the non-null one libevent returned, and no wrapper object
    was touched. *)
Theorem HttpConnection_ctor_target (base : Base) (uri : evhttp_uri)
  (h : cstring) (w : world) :
  evhttp_uri_get_host uri = Some h ->
  HttpConnection_ctor LeftToRight base uri w
  = HttpConnection_ctor RightToLeft base uri w /\
  forall o conn base' w',
    HttpConnection_ctor o base uri w = Ok (conn, base') w' ->
    exists p,
      GetPortFromUri uri w = Ok p w /\
      conn_ conn <> NULL /\ dns_ base' <> NULL /\
      base_ base' = base_ base /\
      trace w'
      = trace w ++ GetDns_events base (dns_ base')
                ++ [ECall (evhttp_connection_base_new (base_ base)
                             (dns_ base') (chars h) p) (conn_ conn)] /\
      heap w' = heap w.
Proof.
  intros Hhost. split.
  - unfold HttpConnection_ctor, eval_args, string_of_c_str. rewrite Hhost.
    unfold bind, ret.
    pose proof (GetPortFromUri_pure uri w) as Hport.
    destruct (GetPortFromUri uri w) as [p w0|d w0|]; [|reflexivity|reflexivity].
    reflexivity.
  - intros o conn base' w' Hrun.
    apply HttpConnection_ctor_inv in Hrun as (h' & p & Hh & Hp & Hnew).
    rewrite Hhost in Hh. injection Hh as <-.
    pose proof (Base_HttpConnectionNew_run base (chars h) p w) as H.
    rewrite Hnew in H. destruct H as (Hc & Hd & Hb & _ & ->).
    exists p. rewrite Hb. simpl. auto 10.
Qed.

Lemma HttpConnection_ctor_target_witness :
  HttpConnection_ctor LeftToRight {| base_ := 4096; dns_ := NULL |}
    uri_with_port (fresh_world obliging_engine)
  = HttpConnection_ctor RightToLeft {| base_ := 4096; dns_ := NULL |}
      uri_with_port (fresh_world obliging_engine).
Proof.
  apply (proj1 (HttpConnection_ctor_target {| base_ := 4096; dns_ := NULL |}
                  uri_with_port cstr_host (fresh_world obliging_engine)
                  eq_refl)).
Defined.

Lemma creations_GetDns_events (this : Base) (d : ptr) :
  creations (GetDns_events this d)
  = if dns_ this =? NULL then 1%nat else 0%nat.
Proof. unfold GetDns_events. now destruct (dns_ this =? NULL). Qed.

Lemma connect_all_run (o : eval_order) (uris : list evhttp_uri) (base : Base)
  (w : world) (conns : list HttpConnection) (base' : Base) (w' : world) :
  connect_all o base uris w = Ok (conns, base') w' ->
  exists es,
    trace w' = trace w ++ es /\
    creations es
    = (if (dns_ base =? NULL) && negb (Nat.eqb (length uris) 0)
       then 1%nat else 0%nat) /\
    (dns_ base <> NULL -> base' = base) /\
    base_ base' = base_ base /\
    (uris <> [] -> dns_ base' <> NULL) /\
    length conns = length uris /\
    forall b d host p c,
      In (ECall (evhttp_connection_base_new b d host p) c) es ->
      b = base_ base /\ d = dns_ base' /\ c <> NULL.
Proof.
  revert base w conns base' w'.
  induction uris as [|uri rest IH]; intros base w conns base' w'.
  - simpl. unfold ret. intros [= <- <- <-]. exists [].
    rewrite app_nil_r, andb_false_r.
    repeat split; auto; try contradiction; intros b d host p c [].
  - simpl. unfold bind at 1.
    destruct (HttpConnection_ctor o base uri w) as [[conn b1] w1|d w1|] eqn:Hc;
      try (intros H; discriminate H).
    simpl snd. simpl fst. unfold bind at 1.
    destruct (connect_all o b1 rest w1) as [[cs b2] w2|d w2|] eqn:Hrest;
      try (intros H; discriminate H).
    unfold ret. intros [= <- <- <-].
    apply HttpConnection_ctor_inv in Hc as (h & p & _ & _ & Hnew).
    pose proof (Base_HttpConnectionNew_run base (chars h) p w) as H.
    rewrite Hnew in H. destruct H as (Hconn & Hd1 & Hb1 & Hsame & ->).
    destruct (IH _ _ _ _ _ Hrest) as (es & Htr & Hcr & Hkeep & Hbase & _ & Hlen & Hin).
    specialize (Hkeep Hd1). subst b2.
    exists (GetDns_events base (dns_ b1)
            ++ [ECall (evhttp_connection_base_new (base_ base) (dns_ b1)
                         (chars h) p) (conn_ conn)]
            ++ es).
    split; [rewrite Htr; cbn [trace]; now rewrite <- !app_assoc|].
    split; [|split; [|split; [|split; [|split]]]].
    + rewrite !creations_app, creations_GetDns_events, Hcr.
      apply Z.eqb_neq in Hd1. rewrite Hd1. unfold creations. simpl.
      destruct (dns_ base =? NULL); reflexivity.
    + exact Hsame.
    + rewrite Hb1. reflexivity.
    + intros _. exact Hd1.
    + simpl. now rewrite Hlen.
    + intros b d host p' c Hev.
      apply in_app_or in Hev as [Hev|Hev];
        [|apply in_app_or in Hev as [Hev|Hev]].
      * exfalso. unfold GetDns_events in Hev.
        destruct (dns_ base =? NULL); simpl in Hev;
          intuition discriminate.
      * destruct Hev as [[= <- <- <- <- <-]|[]]. auto.
      * destruct (Hin _ _ _ _ _ Hev) as (-> & -> & Hc'). rewrite Hb1. auto.
Qed.

(** X10: connections on one [Base] share one resolver.  However many
    connections are constructed on the same shared [Base], the resolver
    handle is created at most once (by the first connection, and not at
    all when the [Base] already has one), and every connection is
    requested from libevent with that one handle and the loop of the
    [Base]. *)
Theorem connect_all_one_resolver (o : eval_order) (uris : list evhttp_uri)
  (base : Base) (w : world) (conns : list HttpConnection) (base' : Base)
  (w' : world) :
  connect_all o base uris w = Ok (conns, base') w' ->
  exists es,
    trace w' = trace w ++ es /\
    (creations es <= 1)%nat /\
    (dns_ base <> NULL -> creations es = 0%nat /\ base' = base) /\
    length conns = length uris /\
    forall b d host p c,
      In (ECall (evhttp_connection_base_new b d host p) c) es ->
      b = base_ base /\ d = dns_ base' /\ d <> NULL /\ c <> NULL.
Proof.
  intros Hrun.
  destruct (connect_all_run _ _ _ _ _ _ _ Hrun)
    as (es & Htr & Hcr & Hkeep & _ & Hdns & Hlen & Hin).
  exists es. split; [exact Htr|].
  split; [rewrite Hcr; destruct (_ && _); lia|].
  split.
  - intros Hset. split; [|auto].
    rewrite Hcr. apply Z.eqb_neq in Hset. now rewrite Hset.
  - split; [exact Hlen|].
    intros b d host p c Hev. destruct (Hin _ _ _ _ _ Hev) as (-> & -> & Hc).
    repeat split; auto. apply Hdns. intros ->.
    simpl in Hrun. unfold ret in Hrun. injection Hrun as _ _ Hw. subst w'.
    rewrite <- (app_nil_r (trace w)) in Htr at 1.
    apply app_inv_head in Htr. subst es. destruct Hev.
Qed.

Lemma connect_all_one_resolver_witness :
  exists es,
    [ELock; ECall (evdns_base_new 4096 1) 4097; EUnlock;
     ECall (evhttp_connection_base_new 4096 4097 "ct.example.org" 8080) 4099;
     ELock; EUnlock;
     ECall (evhttp_connection_base_new 4096 4097 "ct.example.org" 8080) 4102]
    = [] ++ es /\
    (creations es <= 1)%nat.
Proof.
  destruct (connect_all_one_resolver LeftToRight [uri_with_port; uri_with_port]
              {| base_ := 4096; dns_ := NULL |} (fresh_world obliging_engine)
              _ _ _ eq_refl) as (es & Htr & Hcr & _).
  exists es. split; [exact Htr | exact Hcr].
Defined.

(** ** From construction to destruction *)

Lemma GetPortFromUri_any_world (uri : evhttp_uri) (p : Z) (w1 w : world) :
  GetPortFromUri uri w1 = Ok p w1 -> GetPortFromUri uri w = Ok p w.
Proof.
  unfold GetPortFromUri.
  destruct ((evhttp_uri_get_port uri <? 1) || (evhttp_uri_get_port uri >? 65535)).
  - destruct (evhttp_uri_get_scheme uri) as [s|]; unfold bind, ret, fatal;
      [|intros H; discriminate H].
    destruct (strcmp "http" (chars s) =? 0); now intros [= <-].
  - unfold ret. now intros [= <-].
Qed.

Lemma Base_dtor_run (this : Base) (w : world) :
  exists es,
    Base_dtor this w
    = Ok tt {| engine := engine w; trace := trace w ++ es; heap := heap w |} /\
    exists r,
    es = (if dns_ this =? NULL then []
          else [ECall (evdns_base_free (dns_ this) true)
                  (engine w (trace w) (evdns_base_free (dns_ this) true))])
         ++ [ECall (event_base_free (base_ this)) r].
Proof.
  unfold Base_dtor. destruct (dns_ this =? NULL).
  - eexists. unfold bind, ret, libevent, record. simpl.
    split; [reflexivity|]. eexists. reflexivity.
  - eexists. unfold bind, ret, libevent, record. simpl.
    rewrite <- app_assoc. simpl.
    split; [reflexivity|]. eexists. reflexivity.
Qed.

(** X11: a connection's whole life, for every engine and URI.  When a loop
    handle is constructed, a connection is constructed on it and both are
    destroyed, and all of it runs through, libevent has seen exactly these
    calls in this order: the loop context is made and made notifiable; under
    the lock the resolver is created; the connection is requested for the
    URI's host and resolved port; the connection is freed; the resolver is
    freed, failing its pending requests; the loop context is freed.  Each
    handle acquired is released once, in reverse order of acquisition. *)
Theorem connection_lifetime_calls (o : eval_order) (uri : evhttp_uri)
  (w w' : world) :
  connection_lifetime o uri w = Ok tt w' ->
  exists b d c h p r0 r1 r2 r3,
    evhttp_uri_get_host uri = Some h /\
    GetPortFromUri uri w = Ok p w /\
    d <> NULL /\ c <> NULL /\
    trace w'
    = trace w
      ++ [ECall event_base_new b;
          ECall (evthread_make_base_notifiable b) r0;
          ELock;
          ECall (evdns_base_new b 1) d;
          EUnlock;
          ECall (evhttp_connection_base_new b d (chars h) p) c;
          ECall (evhttp_connection_free c) r1;
          ECall (evdns_base_free d true) r2;
          ECall (event_base_free b) r3] /\
    heap w' = heap w.
Proof.
  unfold connection_lifetime. unfold bind at 1. rewrite Base_ctor_run.
  cbv zeta.
  set (b := engine w (trace w) event_base_new).
  set (r0 := engine w (trace w ++ [ECall event_base_new b])
               (evthread_make_base_notifiable b)).
  set (w1 := {| engine := engine w;
                trace := trace w
                         ++ [ECall event_base_new b;
                             ECall (evthread_make_base_notifiable b) r0];
                heap := heap w |}).
  unfold bind at 1.
  destruct (HttpConnection_ctor o {| base_ := b; dns_ := NULL |} uri w1)
    as [[conn base'] w2|m w2|] eqn:Hc; try (intros H; discriminate H).
  apply HttpConnection_ctor_inv in Hc as (h & p & Hhost & Hp & Hnew).
  pose proof (Base_HttpConnectionNew_run {| base_ := b; dns_ := NULL |}
                (chars h) p w1) as H.
  rewrite Hnew in H. destruct H as (Hconn & Hd & Hb & _ & ->).
  destruct base' as [b' d]. simpl in Hb, Hd. injection Hb as ->.
  simpl fst. simpl snd.
  unfold bind at 1, HttpConnection_dtor, bind at 1, libevent, ret at 1.
  cbv beta.
  match goal with |- Base_dtor ?t ?v = _ -> _ =>
    destruct (Base_dtor_run t v) as (es & Hrun & r3 & Hes) end.
  rewrite Hrun. intros [= <-]. simpl in Hes.
  apply Z.eqb_neq in Hd as Hd'. rewrite Hd' in Hes. subst es.
  pose proof (GetPortFromUri_any_world uri p w1 w Hp) as Hpw.
  exists b, d, (conn_ conn), h, p, r0. eexists _, _, r3.
  split; [exact Hhost|]. split; [exact Hpw|]. split; [exact Hd|].
  split; [exact Hconn|]. split; [|reflexivity].
  unfold record, GetDns_events. simpl. rewrite <- !app_assoc. reflexivity.
Qed.

Lemma connection_lifetime_calls_witness :
  exists b d c h p r0 r1 r2 r3,
    evhttp_uri_get_host uri_with_port = Some h /\
    GetPortFromUri uri_with_port (fresh_world obliging_engine)
    = Ok p (fresh_world obliging_engine) /\
    d <> NULL /\ c <> NULL /\
    [ECall event_base_new 4096;
     ECall (evthread_make_base_notifiable 4096) 0;
     ELock;
     ECall (evdns_base_new 4096 1) 4099;
     EUnlock;
     ECall (evhttp_connection_base_new 4096 4099 "ct.example.org" 8080) 4101;
     ECall (evhttp_connection_free 4101) 0;
     ECall (evdns_base_free 4099 true) 0;
     ECall (event_base_free 4096) 0]
    = [] ++ [ECall event_base_new b;
             ECall (evthread_make_base_notifiable b) r0;
             ELock;
             ECall (evdns_base_new b 1) d;
             EUnlock;
             ECall (evhttp_connection_base_new b d (chars h) p) c;
             ECall (evhttp_connection_free c) r1;
             ECall (evdns_base_free d true) r2;
             ECall (event_base_free b) r3] /\
    @nil (option object) = [].
Proof.
  exact (connection_lifetime_calls LeftToRight uri_with_port
           (fresh_world obliging_engine) _ eq_refl).
Defined.

Lemma GetDns_repeatedly_locks (n : nat) (this : Base) (w : world) :
  dns_ this <> NULL ->
  exists locks,
    Forall (fun e => e = ELock \/ e = EUnlock) locks /\
    length locks = (2 * n)%nat /\
    GetDns_repeatedly n this w
    = Ok (repeat (dns_ this) n, this)
         {| engine := engine w; trace := trace w ++ locks; heap := heap w |}.
Proof.
  intros Hset. revert w. induction n as [|n IH]; intros w.
  - exists []. split; [constructor|]. split; [reflexivity|].
    simpl. unfold ret. rewrite app_nil_r. now destruct w.
  - simpl GetDns_repeatedly. unfold bind at 1.
    rewrite (Base_GetDns_again this w Hset). simpl snd. simpl fst.
    destruct (IH {| engine := engine w; trace := trace w ++ [ELock; EUnlock];
                    heap := heap w |}) as (locks & Hall & Hlen & Hrun).
    exists ([ELock; EUnlock] ++ locks).
    split; [constructor; [now left|]; constructor; [now right|]; exact Hall|].
    split; [simpl; lia|].
    unfold bind. rewrite Hrun. unfold ret. simpl. now rewrite <- app_assoc.
Qed.

(** X12: a loop handle's whole life, for every engine.  Constructed, asked
    [n] times for its resolver and destroyed, a [Base] that was never asked
    frees only the loop context, and no resolver; one that was asked
    created the resolver on the first call, only took and released the
    lock on the others, and frees that resolver once, failing its pending
    requests, before it frees the loop context.  The only abort is the
    first call getting no resolver. *)
Theorem base_lifetime_resolver (n : nat) (w : world) :
  match base_lifetime n w with
  | Ok _ w' =>
      heap w' = heap w /\
      exists b r0 r,
        (n = 0%nat /\
         trace w'
         = trace w ++ [ECall event_base_new b;
                       ECall (evthread_make_base_notifiable b) r0;
                       ECall (event_base_free b) r]) \/
        (n <> 0%nat /\
         exists d locks r2,
           d <> NULL /\
           Forall (fun e => e = ELock \/ e = EUnlock) locks /\
           length locks = (2 * (n - 1))%nat /\
           trace w'
           = trace w ++ [ECall event_base_new b;
                         ECall (evthread_make_base_notifiable b) r0;
                         ELock;
                         ECall (evdns_base_new b 1) d;
                         EUnlock]
                     ++ locks
                     ++ [ECall (evdns_base_free d true) r2;
                         ECall (event_base_free b) r])
  | Fatal m _ => n <> 0%nat /\ m = dns_diagnostic
  | Undefined => False
  end.
Proof.
  unfold base_lifetime. unfold bind at 1. rewrite Base_ctor_run. cbv zeta.
  set (b := engine w (trace w) event_base_new).
  set (r0 := engine w (trace w ++ [ECall event_base_new b])
               (evthread_make_base_notifiable b)).
  set (w1 := {| engine := engine w;
                trace := trace w
                         ++ [ECall event_base_new b;
                             ECall (evthread_make_base_notifiable b) r0];
                heap := heap w |}).
  destruct n as [|n].
  - simpl GetDns_repeatedly. unfold bind, ret. simpl snd.
    destruct (Base_dtor_run {| base_ := b; dns_ := NULL |} w1)
      as (es & Hrun & r & Hes).
    rewrite Hrun. simpl in Hes. subst es. split; [reflexivity|].
    exists b, r0, r. left. split; [reflexivity|].
    simpl. now rewrite <- app_assoc.
  - simpl GetDns_repeatedly. unfold bind at 1. unfold bind at 1.
    rewrite (Base_GetDns_first {| base_ := b; dns_ := NULL |} w1 eq_refl).
    cbv zeta. simpl base_.
    set (d := engine w1 (trace w1 ++ [ELock]) (evdns_base_new b 1)).
    destruct (Z.eqb_spec d NULL) as [E|E]; [split; [lia|reflexivity]|].
    simpl snd. simpl fst. unfold bind at 1.
    match goal with |- context [GetDns_repeatedly n ?t ?v] =>
      destruct (GetDns_repeatedly_locks n t v E)
        as (locks & Hall & Hlen & Hrun) end.
    rewrite Hrun. unfold ret at 1. simpl snd.
    match goal with |- context [Base_dtor ?t ?v] =>
      destruct (Base_dtor_run t v) as (es & Hd & r & Hes) end.
    rewrite Hd. simpl in Hes. apply Z.eqb_neq in E as E'. rewrite E' in Hes.
    subst es. split; [reflexivity|].
    exists b, r0, r. right. split; [lia|].
    exists d, locks. eexists. split; [exact E|]. split; [exact Hall|].
    split; [rewrite Hlen; lia|].
    simpl. rewrite <- !app_assoc. reflexivity.
Qed.

(** ** Arming *)

Lemma double_ge_zero_long (x : double) (z : Z) (w w' : world) :
  double_ge x (double_of_Z 0) = true ->
  double_to_long (trunc x) w = Ok z w' -> 0 <= z.
Proof.
  rewrite double_to_long_trunc.
  unfold double_ge, SFleb. change (double_of_Z 0) with (S754_zero false).
  destruct x as [s|s| |s m e]; simpl; unfold ret, undefined;
    try discriminate.
  - intros _ [= <- _]. lia.
  - destruct s; [discriminate|]. intros _.
    destruct (_ && _); [|intros H; discriminate H].
    intros [= <- _]. apply integer_part_nonneg.
Qed.

(** X13: [Event::Add] never arms an event with a negative number of
    seconds, and it calls into libevent once.  Whatever the timeout, a run
    that is defined makes exactly one call, [event_add] on the event's
    registration, and is fatal exactly when that call answers non-zero;
    the timeout pointer is null exactly when the timeout is not greater
    than or equal to zero (negative, or not a number), and otherwise
    points to a [timeval] whose [tv_sec] is not negative.  No object is
    touched. *)
Theorem Event_Add_one_call (this : Event) (timeout : double) (w : world) :
  match Event_Add this timeout w with
  | Undefined => double_ge timeout (double_of_Z 0) = true
  | outcome =>
      exists tvp,
        outcome = armed_with this tvp w /\
        match tvp with
        | Some tv =>
            double_ge timeout (double_of_Z 0) = true /\ 0 <= tv_sec tv
        | None => double_ge timeout (double_of_Z 0) = false
        end
  end.
Proof.
  assert (forall tvp,
            match armed_with this tvp w with
            | Undefined => False
            | _ => True
            end) as Harmed.
  { intros tvp. unfold armed_with. cbv zeta. now destruct (_ =? 0). }
  unfold Event_Add. unfold bind at 1.
  destruct (double_ge timeout (double_of_Z 0)) eqn:Hge.
  - unfold bind at 1.
    pose proof (double_to_long_pure (trunc timeout) w) as Hs.
    destruct (double_to_long (trunc timeout) w) as [sec w1|m w1|] eqn:Hsec;
      [|contradiction|reflexivity].
    subst w1. unfold bind at 1.
    match goal with |- context [double_to_long ?x w] =>
      pose proof (double_to_long_pure x w) as Hu;
      destruct (double_to_long x w) as [usec w1|m w1|] end;
      [|contradiction|reflexivity].
    subst w1. unfold ret at 1. rewrite Event_Add_arm.
    specialize (Harmed (Some {| tv_sec := sec; tv_usec := usec |})).
    destruct (armed_with this (Some {| tv_sec := sec; tv_usec := usec |}) w)
      eqn:Ha; [| |contradiction].
    all: exists (Some {| tv_sec := sec; tv_usec := usec |});
      split; [now rewrite Ha|]; split; [reflexivity|]; simpl;
      eapply double_ge_zero_long; eauto.
  - unfold ret at 1. rewrite Event_Add_arm.
    specialize (Harmed None).
    destruct (armed_with this None w) eqn:Ha; [| |contradiction].
    all: exists None; split; [now rewrite Ha | reflexivity].
Qed.

(** X14: an event's registration is freed on destruction, armed or not.
    When an [Event] is constructed, armed or left alone, and destroyed,
    and all of it runs through, libevent has seen [event_new] with the
    object's own address as callback argument, then (if armed) one
    [event_add] on the registration [event_new] returned, answered 0,
    then [event_free] on that same registration, and nothing else. *)
Theorem event_lifetime_calls (base : Base) (sock events : Z) (cb : closure)
  (arm : option double) (w w' : world) :
  event_lifetime base sock events cb arm w = Ok tt w' ->
  exists this ev armed r,
    ev <> NULL /\
    trace w'
    = trace w
      ++ [ENew this;
          ECall (event_new (base_ base) sock events Fn_Event_Dispatch this) ev]
      ++ armed
      ++ [ECall (event_free ev) r] /\
    match arm with
    | None => armed = []
    | Some timeout =>
        exists tvp,
          armed = [ECall (event_add ev tvp) 0] /\
          (tvp = None <-> double_ge timeout (double_of_Z 0) = false)
    end.
Proof.
  unfold event_lifetime. unfold bind at 1. rewrite Event_ctor_run. cbv zeta.
  set (this := addr_of_index (length (heap w))).
  set (ev := engine w (trace w ++ [ENew this])
               (event_new (base_ base) sock events Fn_Event_Dispatch this)).
  destruct (Z.eqb_spec ev NULL) as [E|E]; [intros H; discriminate H|].
  unfold bind at 1. unfold load_Event at 1. simpl heap.
  assert (load this (heap w ++ [Some (OEvent {| cb_ := cb; ev_ := ev |})])
          = Some (OEvent {| cb_ := cb; ev_ := ev |})) as Hl
    by apply load_fresh.
  rewrite Hl.
  set (w1 := {| engine := engine w;
                trace := trace w
                         ++ [ENew this;
                             ECall (event_new (base_ base) sock events
                                      Fn_Event_Dispatch this) ev];
                heap := heap w ++ [Some (OEvent {| cb_ := cb; ev_ := ev |})] |}).
  set (e := {| cb_ := cb; ev_ := ev |}).
  unfold bind at 1. destruct arm as [timeout|].
  - pose proof (Event_Add_one_call e timeout w1) as Hadd.
    destruct (Event_Add e timeout w1) as [[] w2|m w2|];
      try (intros H; discriminate H).
    destruct Hadd as (tvp & Harm & Htvp).
    unfold armed_with in Harm. cbv zeta in Harm.
    set (r0 := engine w1 (trace w1) (event_add (ev_ e) tvp)) in Harm.
    destruct (Z.eqb_spec r0 0) as [Hr|Hr]; [|discriminate Harm].
    clearbody r0. subst r0. injection Harm as ->.
    unfold Event_dtor, bind, libevent, ret. intros [= <-].
    exists this, ev, [ECall (event_add ev tvp) 0]. eexists.
    split; [exact E|].
    split; [unfold w1; cbn [trace record engine]; rewrite <- !app_assoc;
            reflexivity|].
    exists tvp. split; [reflexivity|].
    destruct tvp as [tv|]; [destruct Htvp as [Hge _]|].
    + rewrite Hge. split; intros H; discriminate H.
    + split; auto.
  - unfold ret at 1. unfold Event_dtor, bind, libevent, ret. intros [= <-].
    exists this, ev, []. eexists. split; [exact E|].
    split; [unfold w1; cbn [trace record engine]; rewrite <- !app_assoc;
            reflexivity|].
    reflexivity.
Qed.

Lemma event_lifetime_calls_witness :
  exists this ev armed r,
    ev <> NULL /\
    [ENew 1; ECall (event_new 4096 9 2 Fn_Event_Dispatch 1) 4097;
     ECall (event_add 4097 None) 0; ECall (event_free 4097) 0]
    = [] ++ [ENew this; ECall (event_new 4096 9 2 Fn_Event_Dispatch this) ev]
         ++ armed ++ [ECall (event_free ev) r] /\
    exists tvp,
      armed = [ECall (event_add ev tvp) 0] /\
      (tvp = None
       <-> double_ge minus_three_tenths (double_of_Z 0) = false).
Proof.
  exact (event_lifetime_calls {| base_ := 4096; dns_ := NULL |} 9 2 5%nat
           (Some minus_three_tenths) (fresh_world obliging_engine) _ eq_refl).
Defined.
